(** * data_utils: dollar bars and schema validation

    A shallow embedding of [data_utils/dollar_bars.py] and of
    [data_utils/validation.py].

    Numbers.  The price and volume columns hold binary64 numbers.  A finite
    binary64 number is a rational, so the values are embedded in [Q];
    comparisons, [max] and [min] give the same answers on [Q] as on the
    floats.  The operations that round ([+], [-], [*] and the sum of a
    column) are parameters of the embedding, gathered in the class
    [Rounding], of which nothing is assumed: what is proved for every
    [Rounding] holds however the operations round.  Infinities and NaN are
    not embedded.  The concrete tables used below hold small integers, on
    which binary64 arithmetic is exact; they are evaluated with the exact
    operations ([exact_rounding]).  Timestamps are embedded as integers (an
    instant counted from some epoch).

    Tables.  The tick table handed to [create] is read through three columns
    only, so it is embedded as the list of its rows ([Tick.t]).  A Python
    exception is a [Raised] result. *)

From Stdlib Require Import QArith Qcanon Qminmax ZArith Lia Lqa.
From stdpp Require Import base option list sorting strings gmap.

Local Open Scope Z_scope.
Local Open Scope nat_scope.
Local Open Scope string_scope.
Local Open Scope list_scope.

(** ** Results of fallible code *)

Inductive Error : Type :=
| IndexError.

Inductive result (A : Type) : Type :=
| Ok (a : A)
| Raised (e : Error).

Arguments Ok {A} a.
Arguments Raised {A} e.

(** Sequencing: [x ← r; k] runs [k] on the value of [r] and passes an
    exception of [r] on. *)
Definition result_bind {A B : Type} (k : A -> result B) (r : result A)
    : result B :=
  match r with
  | Ok a => k a
  | Raised e => Raised e
  end.

#[global] Instance result_mbind : MBind result := @result_bind.

(** [l[i]] for a non-negative index: out of range raises. *)
Definition index {A : Type} (l : list A) (i : nat) : result A :=
  match l !! i with
  | Some x => Ok x
  | None => Raised IndexError
  end.

(** [l[a:b]] for non-negative bounds: a Python slice clamps to the list. *)
Definition slice {A : Type} (l : list A) (a b : nat) : list A :=
  take (b - a) (drop a l).

(** [for i in idxs: st = body st i], stopping at the first exception. *)
Fixpoint for_range {St : Type} (body : St -> nat -> result St)
    (idxs : list nat) (st : St) : result St :=
  match idxs with
  | [] => Ok st
  | i :: rest => st' ← body st i; for_range body rest st'
  end.

(** ** Rows *)

Module Tick.
Record t : Type := mk { price : Q; volume : Q; timestamp : Z }.
End Tick.

Module Bar.
Record t : Type := mk {
  timestamp : Z;
  open : Q;
  high : Q;
  low : Q;
  close : Q;
  volume : Q;
  dollar_volume : Q
}.
End Bar.

(** ** Arithmetic *)

(** The binary64 operations of the code that round their result: [x + y],
    [x - y], [x * y], and [Series.sum()] of a column (in whatever order
    polars adds). *)
Class Rounding : Type := {
  fadd : Q -> Q -> Q;
  fsub : Q -> Q -> Q;
  fmul : Q -> Q -> Q;
  fsum : list Q -> Q
}.

(** The operations without rounding: those of binary64 wherever every
    intermediate result is a binary64 number, as on small integers. *)
Definition exact_rounding : Rounding :=
  {| fadd := Qplus;
     fsub := Qminus;
     fmul := Qmult;
     fsum := λ l, fold_left Qplus l 0%Q |}.

(** ** Column operations used by [create] *)

(** [np.cumsum]: running sums, the first one being the first element. *)
Fixpoint cumsum_from `{Rounding} (acc : Q) (l : list Q) : list Q :=
  match l with
  | [] => []
  | x :: rest => let s := fadd acc x in s :: cumsum_from s rest
  end.

Definition cumsum `{Rounding} (l : list Q) : list Q :=
  match l with
  | [] => []
  | x :: rest => x :: cumsum_from x rest
  end.

(** [Series.max()] and [Series.min()] of a column whose first element is
    [x] and whose other elements are [rest]. *)
Definition series_max (x : Q) (rest : list Q) : Q := fold_left Qmax rest x.
Definition series_min (x : Q) (rest : list Q) : Q := fold_left Qmin rest x.

(** [Series.sum()] of a column. *)
Definition series_sum `{Rounding} (l : list Q) : Q := fsum l.

(** ** Tables

    What the code needs of polars' [DataFrame]: the schema (column names
    with their types, in column order) and the rows.  A cell holds a Python
    object: a float, a datetime, or (as in the last statement of [create]) a
    polars data type object. *)

Inductive DataType : Type :=
| Datetime | Float64 | Int64 | Float32 | Int32 | Object.

#[global] Instance DataType_eq_dec : EqDecision DataType.
Proof. solve_decision. Defined.

(** [str] of a data type, as an f-string prints it: its name (the unit and
    the zone that follow the name of a Datetime column's type are left
    out). *)
Definition dtype_str (d : DataType) : string :=
  match d with
  | Datetime => "Datetime"
  | Float64 => "Float64"
  | Int64 => "Int64"
  | Float32 => "Float32"
  | Int32 => "Int32"
  | Object => "Object"
  end.

Inductive PyObj : Type :=
| PyFloat (x : Q)
| PyDatetime (ts : Z)
| PyDataType (d : DataType).

(** The column type polars infers for a Python object. *)
Definition infer_dtype (v : PyObj) : DataType :=
  match v with
  | PyFloat _ => Float64
  | PyDatetime _ => Datetime
  | PyDataType _ => Object
  end.

Module DataFrame.

Record t : Type :=
  mk { schema : list (string * DataType); rows : list (list PyObj) }.

Definition columns (df : t) : list string := (schema df).*1.
Definition height (df : t) : nat := length (rows df).

(** [pl.DataFrame(rows)] for a non-empty list of dicts that all have the
    keys of the first one: a row per dict, column types inferred from the
    values. *)
Definition of_dicts (dicts : list (list (string * PyObj))) : t :=
  {| schema := match dicts with
               | [] => []
               | d :: _ => (λ kv, (kv.1, infer_dtype kv.2)) <$> d
               end;
     rows := (λ d, d.*2) <$> dicts |}.

(** [pl.DataFrame(d)] for a dict [d], given as the [data] argument (the
    schema is another argument, [schema=]): the keys name the columns and
    the values are their contents.  Here every value is a single object,
    not a sequence: each column holds that one object. *)
Definition of_dict (d : list (string * PyObj)) : t :=
  {| schema := (λ kv, (kv.1, infer_dtype kv.2)) <$> d;
     rows := [d.*2] |}.

End DataFrame.

(** ** DollarBars *)

Module DollarBars.

Record t : Type := mk { threshold : Q; min_ticks : Z }.

(** [DollarBars.__init__]: both arguments are stored as given, nothing is checked. *)
Definition __init__ (threshold : Q) (min_ticks : Z) : result t :=
  Ok {| threshold := threshold; min_ticks := min_ticks |}.

(** Lines 78-96: the bar built from the slice [bar_data] when a bar closes.
    [bar_data[price_col][0]] is evaluated first and raises on an empty
    slice, so the aggregates are only ever taken of a non-empty column. *)
Definition make_bar `{Rounding} (bar_data : list Tick.t) (current_cum_dv : Q)
    : result Bar.t :=
  match bar_data with
  | [] => Raised IndexError
  | first :: rest =>
      let open_price := Tick.price first in
      let high_price := series_max (Tick.price first) (Tick.price <$> rest) in
      let low_price := series_min (Tick.price first) (Tick.price <$> rest) in
      let close_price := Tick.price (List.last rest first) in
      let volume := series_sum (Tick.volume <$> bar_data) in
      let dollar_volume := current_cum_dv in
      let timestamp := Tick.timestamp first in
      Ok {| Bar.timestamp := timestamp;
            Bar.open := open_price;
            Bar.high := high_price;
            Bar.low := low_price;
            Bar.close := close_price;
            Bar.volume := volume;
            Bar.dollar_volume := dollar_volume |}
  end.

(** The loop of [create] (lines 68-98).  [emit] is what gets appended to
    [bars] when a bar closes: [make_bar] in [create] itself, [make_bar]
    paired with the slice it was built from in [create_traced]. *)
Section Loop.
Context `{Rounding} {X : Type}.
Variable emit : list Tick.t -> Q -> result X.

Record LoopState : Type :=
  mkState { bars : list X; current_bar_start : nat }.

Definition loop_body (self : t) (data : list Tick.t)
    (cum_dollar_volume : list Q) (st : LoopState) (i : nat)
    : result LoopState :=
  cum_i ← index cum_dollar_volume i;
  cum_start ← index cum_dollar_volume (current_bar_start st);
  let current_cum_dv := fsub cum_i cum_start in
  if Qle_bool (threshold self) current_cum_dv
     && (min_ticks self <=? Z.of_nat i - Z.of_nat (current_bar_start st))%Z
  then
    let bar_data := slice data (current_bar_start st) (i + 1) in
    bar ← emit bar_data current_cum_dv;
    Ok {| bars := bars st ++ [bar]; current_bar_start := i + 1 |}
  else Ok st.

Definition run_loop (self : t) (data : list Tick.t) : result LoopState :=
  let prices := Tick.price <$> data in
  let volumes := Tick.volume <$> data in
  let dollar_volumes := zip_with fmul prices volumes in
  let cum_dollar_volume := cumsum dollar_volumes in
  for_range (loop_body self data cum_dollar_volume)
            (seq 0 (length data))
            {| bars := []; current_bar_start := 0 |}.
End Loop.

Arguments LoopState : clear implicits.
Arguments mkState {X} _ _.
Arguments bars {X} _.
Arguments current_bar_start {X} _.

(** Lines 56-98 of [create]: the list [bars] when the loop has ended. *)
Definition create_bars `{Rounding} (self : t) (data : list Tick.t)
    : result (list Bar.t) :=
  st ← run_loop make_bar self data;
  Ok (bars st).

(** The same loop, remembering next to each bar the slice [bar_data] it
    was built from, and returning the final [current_bar_start] too. *)
Definition emit_traced `{Rounding} (bar_data : list Tick.t)
    (current_cum_dv : Q)
    : result (Bar.t * list Tick.t) :=
  bar ← make_bar bar_data current_cum_dv;
  Ok (bar, bar_data).

Definition create_traced `{Rounding} (self : t) (data : list Tick.t)
    : result (LoopState (Bar.t * list Tick.t)) :=
  run_loop emit_traced self data.

(** The dict appended to [bars] (lines 88-96), for a tick table whose price
    and volume columns are Float64. *)
Definition bar_dict (b : Bar.t) : list (string * PyObj) :=
  [ ("timestamp", PyDatetime (Bar.timestamp b));
    ("open", PyFloat (Bar.open b));
    ("high", PyFloat (Bar.high b));
    ("low", PyFloat (Bar.low b));
    ("close", PyFloat (Bar.close b));
    ("volume", PyFloat (Bar.volume b));
    ("dollar_volume", PyFloat (Bar.dollar_volume b)) ].

(** [create]: the loop, then lines 100-113. *)
Definition create `{Rounding} (self : t) (data : list Tick.t)
    : result DataFrame.t :=
  bars ← create_bars self data;
  match bars with
  | _ :: _ => Ok (DataFrame.of_dicts (bar_dict <$> bars))
  | [] =>
      Ok (DataFrame.of_dict
            [ ("timestamp", PyDataType Datetime);
              ("open", PyDataType Float64);
              ("high", PyDataType Float64);
              ("low", PyDataType Float64);
              ("close", PyDataType Float64);
              ("volume", PyDataType Float64);
              ("dollar_volume", PyDataType Float64) ])
  end.

(** [create_lazy]: two [with_columns] calls, each adding one column to
    the frame; the frame is returned as it then is.  The tick table has
    its columns in the order timestamp, price, volume, and polars is one
    that has [Expr.cumsum]. *)
Definition create_lazy `{Rounding} (self : t) (data : list Tick.t)
    : DataFrame.t :=
  let dollar_volume :=
    zip_with fmul (Tick.price <$> data) (Tick.volume <$> data) in
  let cum_dollar_volume := cumsum dollar_volume in
  {| DataFrame.schema :=
       [ ("timestamp", Datetime); ("price", Float64); ("volume", Float64);
         ("dollar_volume", Float64); ("cum_dollar_volume", Float64) ];
     DataFrame.rows :=
       zip_with (λ row c, row ++ [PyFloat c])
         (zip_with (λ tk dv,
                      [ PyDatetime (Tick.timestamp tk);
                        PyFloat (Tick.price tk);
                        PyFloat (Tick.volume tk);
                        PyFloat dv ])
                   data dollar_volume)
         cum_dollar_volume |}.

End DollarBars.

(** ** validate_schema *)

(** The loop over [expected_schema.items()], in the dict's order; the two
    [return]s inside it end the loop. *)
Fixpoint validate_items (actual_schema : gmap string DataType)
    (items : list (string * DataType)) : bool * option string :=
  match items with
  | [] => (true, None)
  | (col, expected_type) :: rest =>
      match actual_schema !! col with
      | None => (false, Some ("Missing column: " +:+ col))
      | Some actual_type =>
          if decide (actual_type ≠ expected_type)
          then (false,
                Some ("Type mismatch for " +:+ col +:+ ": expected "
                      +:+ dtype_str expected_type +:+ ", got "
                      +:+ dtype_str actual_type))
          else validate_items actual_schema rest
      end
  end.

Definition validate_schema (data : DataFrame.t)
    (expected_schema : list (string * DataType)) : bool * option string :=
  let actual_schema : gmap string DataType :=
    list_to_map (DataFrame.schema data) in
  validate_items actual_schema expected_schema.

(** ** Concrete tables *)

Definition tick (p v : Z) (ts : Z) : Tick.t :=
  Tick.mk (inject_Z p) (inject_Z v) ts.

(** [n] ticks of price 100.0 and volume 1000, one per minute. *)
Definition constant_ticks (n : nat) : list Tick.t :=
  (λ i, tick 100 1000 (Z.of_nat i)) <$> seq 0 n.

(** * Notions used to state the properties *)

Definition result_map {A B : Type} (f : A -> B) (r : result A) : result B :=
  match r with
  | Ok a => Ok (f a)
  | Raised e => Raised e
  end.

(** The sum of a column as a number, nothing being rounded. *)
Fixpoint total (l : list Q) : Q :=
  match l with
  | [] => 0%Q
  | x :: rest => (x + total rest)%Q
  end.

(** The dollar value of a tick, and of a run of ticks, as numbers. *)
Definition tick_value (tk : Tick.t) : Q := (Tick.price tk * Tick.volume tk)%Q.

Definition dollar_value (run : list Tick.t) : Q := total (tick_value <$> run).

(** Forgetting the remembered slices of a traced state. *)
Definition erase (st : DollarBars.LoopState (Bar.t * list Tick.t))
    : DollarBars.LoopState Bar.t :=
  DollarBars.mkState (DollarBars.bars st).*1 (DollarBars.current_bar_start st).

(** The products of line 64, and their running sums of line 65. *)
Definition tick_product `{Rounding} (tk : Tick.t) : Q :=
  fmul (Tick.price tk) (Tick.volume tk).

Definition running_sums `{Rounding} (data : list Tick.t) : list Q :=
  cumsum (tick_product <$> data).

(** What is known of a closed bar [item.1] and of the slice [item.2] it was
    built from: the slice is not empty, the bar is [make_bar] of it, and
    the two tests of line 76 held, [length rest] being
    [i - current_bar_start]. *)
Definition closed_by `{Rounding} (self : DollarBars.t)
    (item : Bar.t * list Tick.t) : Prop :=
  exists first rest,
    item.2 = first :: rest /\
    DollarBars.make_bar item.2 (Bar.dollar_volume item.1) = Ok item.1 /\
    (DollarBars.threshold self <= Bar.dollar_volume item.1)%Q /\
    (DollarBars.min_ticks self <= Z.of_nat (length rest))%Z.

(** The invariant of the loop before iteration [i]. *)
Definition loop_inv `{Rounding} (self : DollarBars.t) (data : list Tick.t)
    (i : nat)
    (st : DollarBars.LoopState (Bar.t * list Tick.t)) : Prop :=
  DollarBars.current_bar_start st <= i /\
  concat (DollarBars.bars st).*2
    = take (DollarBars.current_bar_start st) data /\
  Forall (closed_by self) (DollarBars.bars st).

(** A bar [b] summarises the ticks [run]: first and last price, largest and
    smallest price, first timestamp, and for volume [Series.sum()] of the
    volumes of [run]. *)
Definition summarises `{Rounding} (b : Bar.t) (run : list Tick.t) : Prop :=
  (exists first, head run = Some first
     /\ Bar.open b = Tick.price first
     /\ Bar.timestamp b = Tick.timestamp first) /\
  (exists final, last run = Some final /\ Bar.close b = Tick.price final) /\
  (Bar.high b ∈ Tick.price <$> run
     /\ forall tk, tk ∈ run -> (Tick.price tk <= Bar.high b)%Q) /\
  (Bar.low b ∈ Tick.price <$> run
     /\ forall tk, tk ∈ run -> (Bar.low b <= Tick.price tk)%Q) /\
  Bar.volume b = series_sum (Tick.volume <$> run).

(** [data.schema], as [validate_schema] looks columns up in it. *)
Definition actual_schema (data : DataFrame.t) : gmap string DataType :=
  list_to_map (DataFrame.schema data).

(** An expected column is met: it is in the table, with that very type. *)
Definition column_ok (data : DataFrame.t) (item : string * DataType) : Prop :=
  actual_schema data !! item.1 = Some item.2.

Ltac unfold_bind := unfold mbind, result_mbind, result_bind; simpl.

(** * Further notions: the closing test and the order of bars *)

(** The prices of a bar are in order: [low <= open, close <= high]. *)
Definition price_order (b : Bar.t) : Prop :=
  (Bar.low b <= Bar.open b)%Q /\ (Bar.open b <= Bar.high b)%Q
  /\ (Bar.low b <= Bar.close b)%Q /\ (Bar.close b <= Bar.high b)%Q.

(** The test of line 76 at index [i], for a bar that starts at index
    [start], on the running sums [cum] as they were computed; the loop
    evaluates it at indices of [cum] only. *)
Definition passes `{Rounding} (self : DollarBars.t) (cum : list Q)
    (start i : nat) : bool :=
  match cum !! i, cum !! start with
  | Some cum_i, Some cum_start =>
      Qle_bool (DollarBars.threshold self) (fsub cum_i cum_start)
      && (DollarBars.min_ticks self <=? Z.of_nat i - Z.of_nat start)%Z
  | _, _ => false
  end.

(** A property of each bar of a trace, given the index of the table at
    which the bar's slice starts: the first slice starts at [start], each
    other one where the one before it ends. *)
Fixpoint trace_from {A : Type} (P : nat -> A * list Tick.t -> Prop)
    (start : nat) (items : list (A * list Tick.t)) : Prop :=
  match items with
  | [] => True
  | item :: rest => P start item /\ trace_from P (start + length item.2) rest
  end.

(** The [dollar_volume] of the bar is [cum[i] - cum[start]], for the index
    [start] of the first tick of its slice and the index [i] of the last. *)
Definition stores_difference `{Rounding} (cum : list Q) (start : nat)
    (item : Bar.t * list Tick.t) : Prop :=
  exists cum_start cum_i,
    cum !! start = Some cum_start
    /\ cum !! (start + length item.2 - 1) = Some cum_i
    /\ Bar.dollar_volume item.1 = fsub cum_i cum_start.

(** The bar closes at the first index since its start at which the test of
    line 76 passes. *)
Definition closes_first `{Rounding} (self : DollarBars.t) (cum : list Q)
    (start : nat) (item : Bar.t * list Tick.t) : Prop :=
  passes self cum start (start + length item.2 - 1) = true
  /\ forall j, start <= j < start + length item.2 - 1 ->
       passes self cum start j = false.

(** What the loop did when it closed the bar whose slice starts at index
    [start]. *)
Definition closed_at `{Rounding} (self : DollarBars.t) (cum : list Q)
    (start : nat) (item : Bar.t * list Tick.t) : Prop :=
  item.2 <> []
  /\ stores_difference cum start item
  /\ closes_first self cum start item.

(** The second invariant of the loop before iteration [i]: where each bar
    already emitted starts and ends, and that the test has failed at every
    index since [current_bar_start]. *)
Definition loop_inv_index `{Rounding} (self : DollarBars.t)
    (data : list Tick.t) (i : nat)
    (st : DollarBars.LoopState (Bar.t * list Tick.t)) : Prop :=
  DollarBars.current_bar_start st <= i /\
  length (concat (DollarBars.bars st).*2) = DollarBars.current_bar_start st /\
  trace_from (closed_at self (running_sums data)) 0 (DollarBars.bars st) /\
  (forall j, DollarBars.current_bar_start st <= j < i ->
     passes self (running_sums data) (DollarBars.current_bar_start st) j
       = false).

(** A bar made of the one tick [tk], at an index whose running sum is [c]:
    its [dollar_volume] is [c - c]. *)
Definition one_tick_bar `{Rounding} (b : Bar.t) (tk : Tick.t) (c : Q)
    : Prop :=
  Bar.timestamp b = Tick.timestamp tk
  /\ Bar.open b = Tick.price tk /\ Bar.high b = Tick.price tk
  /\ Bar.low b = Tick.price tk /\ Bar.close b = Tick.price tk
  /\ Bar.volume b = series_sum [Tick.volume tk]
  /\ Bar.dollar_volume b = fsub c c.

(** * check_data_quality

    The tables given to [check_data_quality] may hold nulls and columns of
    any type, and [unique()] compares their rows: a cell is [None] (null)
    or a value, and a number is a rational in lowest terms ([Qc]), so that
    two cells are equal exactly when they hold the same value.  A table is
    its schema and its rows; its column names are distinct, so [data[col]]
    for the [j]-th name is the [j]-th column. *)

Inductive Value : Type :=
| VNum (x : Qc)
| VText (s : string)
| VTime (ts : Z).

#[global] Instance Value_eq_dec : EqDecision Value.
Proof. solve_decision. Defined.

Module Table.

Record t : Type :=
  mk { schema : list (string * DataType); rows : list (list (option Value)) }.

Definition columns (df : t) : list string := (schema df).*1.
Definition height (df : t) : nat := length (rows df).
Definition width (df : t) : nat := length (schema df).

(** The number of nulls in column [j]. *)
Definition null_count_of (df : t) (j : nat) : Z :=
  Z.of_nat (length (filter (λ row, row !! j = Some None) (rows df))).

(** [data.null_count().row(0)]: the number of nulls of each column. *)
Definition null_count (df : t) : list Z :=
  null_count_of df <$> seq 0 (width df).

(** [data.unique()]: one row of each kind. *)
Definition unique (df : t) : t :=
  {| schema := schema df; rows := remove_dups (rows df) |}.

(** [data[col].drop_nulls().to_numpy()] for the numeric column [j], whose
    non-null cells are numbers. *)
Definition values_of (df : t) (j : nat) : list Qc :=
  omap (λ row, match row !! j with
               | Some (Some (VNum x)) => Some x
               | _ => None
               end) (rows df).

End Table.

(** A value of the report: an int, a float, a list of names, or a dict
    from column names to ints. *)
Inductive ReportValue : Type :=
| RInt (n : Z)
| RFloat (x : Qc)
| RNames (l : list string)
| RCounts (m : gmap string Z).

(** [{k: v for k, v in items}]: a later item replaces an earlier one of the
    same key. *)
Definition dict_of (items : list (string * Z)) : gmap string Z :=
  foldl (λ d kv, <[kv.1 := kv.2]> d) ∅ items.

(** [sum(d.values())]. *)
Definition sum_values (d : gmap string Z) : Z :=
  map_fold (λ _ v acc, (v + acc)%Z) 0%Z d.

(** [np.percentile(values, q)] of a non-empty array, for an integer [q]
    from 0 to 100: the sorted values are read at the position
    [(n - 1) * q / 100], linearly between its two neighbours. *)
Definition percentile (values : list Qc) (q : Z) : Qc :=
  let sorted := merge_sort Qcle values in
  let n := Z.of_nat (length sorted) in
  let position := ((n - 1) * q)%Z in
  let previous := (position / 100)%Z in
  let next := Z.min (previous + 1) (n - 1) in
  let gamma := (Qc_of_Z (position mod 100) / Qc_of_Z 100)%Qc in
  let a := default 0%Qc (sorted !! Z.to_nat previous) in
  let b := default 0%Qc (sorted !! Z.to_nat next) in
  (a + (b - a) * gamma)%Qc.

(** Lines 86-93: the number of values outside
    [[q1 - 1.5 * iqr, q3 + 1.5 * iqr]]. *)
Definition outlier_count (values : list Qc) : Z :=
  let q1 := percentile values 25 in
  let q3 := percentile values 75 in
  let iqr := (q3 - q1)%Qc in
  let lower_bound := (q1 - Qc_of_Z 3 / Qc_of_Z 2 * iqr)%Qc in
  let upper_bound := (q3 + Qc_of_Z 3 / Qc_of_Z 2 * iqr)%Qc in
  Z.of_nat
    (length (filter (λ v, (v < lower_bound)%Qc \/ (upper_bound < v)%Qc)
               values)).

Definition is_numeric (dtype : DataType) : bool :=
  bool_decide (dtype ∈ [Float64; Int64; Float32; Int32]).

(** One iteration of the loop of lines 82-93, for the [j]-th column. *)
Definition outliers_step (data : Table.t) (outliers : gmap string Z)
    (column : nat * (string * DataType)) : gmap string Z :=
  let j := column.1 in
  let col := column.2.1 in
  let dtype := column.2.2 in
  if is_numeric dtype then
    let values := Table.values_of data j in
    if bool_decide (0 < length values)
    then <[col := outlier_count values]> outliers
    else outliers
  else outliers.

Definition outliers_of (data : Table.t) : gmap string Z :=
  foldl (outliers_step data) ∅
        (zip (seq 0 (Table.width data)) (Table.schema data)).

Definition check_data_quality (data : Table.t)
    (check_missing check_duplicates check_outliers : bool)
    : gmap string ReportValue :=
  let report : gmap string ReportValue :=
    <["columns" := RNames (Table.columns data)]>
      (<["num_columns" := RInt (Z.of_nat (Table.width data))]>
         (<["num_rows" := RInt (Z.of_nat (Table.height data))]> ∅)) in
  let report :=
    if check_missing then
      let missing_values :=
        dict_of (zip (Table.columns data) (Table.null_count data)) in
      <["total_missing" := RInt (sum_values missing_values)]>
        (<["missing_values" := RCounts missing_values]> report)
    else report in
  let report :=
    if check_duplicates then
      let num_duplicates :=
        (Z.of_nat (Table.height data)
         - Z.of_nat (Table.height (Table.unique data)))%Z in
      <["duplicate_percentage" :=
          RFloat (if bool_decide (0 < Table.height data)
                  then (Qc_of_Z num_duplicates
                        / Qc_of_Z (Z.of_nat (Table.height data))
                        * Qc_of_Z 100)%Qc
                  else 0%Qc)]>
        (<["num_duplicates" := RInt num_duplicates]> report)
    else report in
  let report :=
    if check_outliers
    then <["outliers" := RCounts (outliers_of data)]> report
    else report in
  report.

(** A table of three columns and four rows: the second and third rows are
    equal, the last price is null, and the last volume is far from the
    others. *)
Definition quality_sample : Table.t :=
  Table.mk
    [("price", Float64); ("volume", Int64); ("venue", Object)]
    [ [Some (VNum (Qc_of_Z 100)); Some (VNum (Qc_of_Z 1000));
       Some (VText "A")];
      [Some (VNum (Qc_of_Z 101)); Some (VNum (Qc_of_Z 1100));
       Some (VText "B")];
      [Some (VNum (Qc_of_Z 101)); Some (VNum (Qc_of_Z 1100));
       Some (VText "B")];
      [None; Some (VNum (Qc_of_Z 9000)); None] ].

(** The sum of a list of ints. *)
Definition zsum (l : list Z) : Z := foldr Z.add 0%Z l.

(** Every row of the table has one cell per column. *)
Definition rectangular (data : Table.t) : Prop :=
  Forall (λ row, length row = Table.width data) (Table.rows data).

(** The number of null cells of the table. *)
Definition null_cells (data : Table.t) : Z :=
  Z.of_nat (length (filter (λ cell, cell = None) (concat (Table.rows data)))).

(** A table whose only column is numeric and holds 5, a null and 5. *)
Definition constant_sample : Table.t :=
  Table.mk [("price", Float64)]
           [ [Some (VNum (Qc_of_Z 5))]; [None]; [Some (VNum (Qc_of_Z 5))] ].

(** * Properties *)

(** What follows, up to the evaluations, holds however the operations of
    [Rounding] round. *)
Section AnyRounding.
Context `{Rounding}.

(** ** Lists, columns and the loop rule *)

Lemma index_lt {A : Type} (l : list A) (i : nat) :
  i < length l -> exists x, l !! i = Some x /\ index l i = Ok x.
Proof.
  intros Hi. unfold index.
  destruct (lookup_lt_is_Some_2 l i Hi) as [x Hx].
  exists x. now rewrite Hx.
Qed.

Lemma length_cumsum_from (l : list Q) (acc : Q) :
  length (cumsum_from acc l) = length l.
Proof.
  revert acc. induction l as [|x l IH]; intros acc; simpl; [reflexivity|].
  now rewrite IH.
Qed.

Lemma length_cumsum (l : list Q) : length (cumsum l) = length l.
Proof.
  destruct l as [|x l]; simpl; [reflexivity|].
  now rewrite length_cumsum_from.
Qed.

Lemma length_slice {A : Type} (l : list A) (a b : nat) :
  b <= length l -> length (slice l a b) = b - a.
Proof.
  intros Hb. unfold slice. rewrite length_take, length_drop. lia.
Qed.

Lemma slice_nonempty {A : Type} (l : list A) (a i : nat) :
  a <= i -> i < length l ->
  exists first rest,
    slice l a (i + 1) = first :: rest /\ length rest = i - a.
Proof.
  intros Ha Hi.
  pose proof (length_slice l a (i + 1) ltac:(lia)) as Hlen.
  destruct (slice l a (i + 1)) as [|first rest]; simpl in Hlen; [lia|].
  exists first, rest. split; [reflexivity|lia].
Qed.

Lemma take_app_slice {A : Type} (l : list A) (a b : nat) :
  a <= b -> take a l ++ slice l a b = take b l.
Proof.
  intros Ha. unfold slice. rewrite take_take_drop. f_equal. lia.
Qed.

Lemma List_last_cons {A : Type} (l : list A) (x y : A) :
  List.last (y :: l) x = List.last l y.
Proof.
  revert x y. induction l as [|z l IH]; intros x y; [reflexivity|].
  change (List.last (y :: z :: l) x) with (List.last (z :: l) x).
  now rewrite !IH.
Qed.

Lemma last_cons_default {A : Type} (x : A) (l : list A) :
  last (x :: l) = Some (List.last l x).
Proof.
  revert x. induction l as [|y l IH]; intros x; [reflexivity|].
  rewrite last_cons_cons, IH. f_equal. symmetry. apply List_last_cons.
Qed.

(** A loop invariant rule for [for i in range(a, a + k)]. *)
Lemma for_range_inv {St : Type} (Inv : nat -> St -> Prop)
    (body : St -> nat -> result St) (k a : nat) (st : St) :
  (forall i s, a <= i < a + k -> Inv i s ->
     exists s', body s i = Ok s' /\ Inv (i + 1) s') ->
  Inv a st ->
  exists st', for_range body (seq a k) st = Ok st' /\ Inv (a + k) st'.
Proof.
  revert a st. induction k as [|k IH]; intros a st Hstep Hinv; simpl.
  - exists st. split; [reflexivity|]. now replace (a + 0) with a by lia.
  - destruct (Hstep a st ltac:(lia) Hinv) as (s' & Hbody & Hinv').
    rewrite Hbody. simpl.
    destruct (IH (S a) s') as (st' & Hrun & Hfin).
    + intros i s Hi HI. apply Hstep; [lia|exact HI].
    + now replace (S a) with (a + 1) by lia.
    + exists st'. split; [exact Hrun|].
      now replace (a + S k) with (S a + k) by lia.
Qed.

(** ** Maxima and minima of a column *)

Lemma Qmax_cases (x y : Q) : Qmax x y = x \/ Qmax x y = y.
Proof.
  unfold Qmax, GenericMinMax.gmax. destruct (x ?= y)%Q; auto.
Qed.

Lemma Qmin_cases (x y : Q) : Qmin x y = x \/ Qmin x y = y.
Proof.
  unfold Qmin, GenericMinMax.gmin. destruct (x ?= y)%Q; auto.
Qed.

Lemma series_max_spec (rest : list Q) (x : Q) :
  series_max x rest ∈ x :: rest /\
  (forall y, y ∈ x :: rest -> (y <= series_max x rest)%Q).
Proof.
  unfold series_max. revert x.
  induction rest as [|z rest IH]; intros x; simpl.
  - split; [left|]. intros y Hy. apply list_elem_of_singleton in Hy.
    subst y. apply Qle_refl.
  - destruct (IH (Qmax x z)) as [Hin Hub]. split.
    + apply elem_of_cons in Hin as [Hin|Hin].
      * rewrite Hin. destruct (Qmax_cases x z) as [-> | ->].
        -- left.
        -- right. left.
      * right. right. exact Hin.
    + intros y Hy.
      assert (Hm : (Qmax x z <= fold_left Qmax rest (Qmax x z))%Q)
        by (apply Hub; left).
      apply elem_of_cons in Hy as [-> | Hy].
      * eapply Qle_trans; [apply Q.le_max_l|exact Hm].
      * apply elem_of_cons in Hy as [-> | Hy].
        -- eapply Qle_trans; [apply Q.le_max_r|exact Hm].
        -- apply Hub. right. exact Hy.
Qed.

Lemma series_min_spec (rest : list Q) (x : Q) :
  series_min x rest ∈ x :: rest /\
  (forall y, y ∈ x :: rest -> (series_min x rest <= y)%Q).
Proof.
  unfold series_min. revert x.
  induction rest as [|z rest IH]; intros x; simpl.
  - split; [left|]. intros y Hy. apply list_elem_of_singleton in Hy.
    subst y. apply Qle_refl.
  - destruct (IH (Qmin x z)) as [Hin Hlb]. split.
    + apply elem_of_cons in Hin as [Hin|Hin].
      * rewrite Hin. destruct (Qmin_cases x z) as [-> | ->].
        -- left.
        -- right. left.
      * right. right. exact Hin.
    + intros y Hy.
      assert (Hm : (fold_left Qmin rest (Qmin x z) <= Qmin x z)%Q)
        by (apply Hlb; left).
      apply elem_of_cons in Hy as [-> | Hy].
      * eapply Qle_trans; [exact Hm|apply Q.le_min_l].
      * apply elem_of_cons in Hy as [-> | Hy].
        -- eapply Qle_trans; [exact Hm|apply Q.le_min_r].
        -- apply Hlb. right. exact Hy.
Qed.

(** ** The running sums *)

Lemma zip_with_tick_product (data : list Tick.t) :
  zip_with fmul (Tick.price <$> data) (Tick.volume <$> data)
  = tick_product <$> data.
Proof.
  induction data as [|tk data IH]; [reflexivity|].
  rewrite !fmap_cons. simpl. f_equal. exact IH.
Qed.

Lemma length_running_sums (data : list Tick.t) :
  length (running_sums data) = length data.
Proof. unfold running_sums. now rewrite length_cumsum, length_fmap. Qed.

(** [np.cumsum] adds one element after the other: the first running sum is
    the first element, each other one the sum before it plus its element. *)
Lemma cumsum_from_step (l : list Q) (acc : Q) (k : nat) (c x : Q) :
  cumsum_from acc l !! k = Some c -> l !! S k = Some x ->
  cumsum_from acc l !! S k = Some (fadd c x).
Proof.
  revert acc k. induction l as [|y l IH]; intros acc k; [discriminate|].
  destruct k as [|k]; simpl.
  - intros [= <-] Hx. destruct l as [|z l]; [discriminate|].
    simpl in *. congruence.
  - apply IH.
Qed.

Lemma cumsum_step (l : list Q) (k : nat) (c x : Q) :
  cumsum l !! k = Some c -> l !! S k = Some x ->
  cumsum l !! S k = Some (fadd c x).
Proof.
  destruct l as [|y l]; [discriminate|].
  destruct k as [|k]; simpl.
  - intros [= <-] Hx. destruct l as [|z l]; [discriminate|].
    simpl in *. congruence.
  - apply cumsum_from_step.
Qed.

Lemma running_sums_first (data : list Tick.t) (tk : Tick.t) :
  data !! 0 = Some tk -> running_sums data !! 0 = Some (tick_product tk).
Proof.
  destruct data as [|first data]; [discriminate|].
  intros [= <-]. reflexivity.
Qed.

Lemma running_sums_step (data : list Tick.t) (k : nat) (c : Q)
    (tk : Tick.t) :
  running_sums data !! k = Some c -> data !! S k = Some tk ->
  running_sums data !! S k = Some (fadd c (tick_product tk)).
Proof.
  intros Hc Htk. apply cumsum_step; [exact Hc|].
  now rewrite list_lookup_fmap, Htk.
Qed.

(** The loop runs on the running sums of the products of all ticks. *)
Lemma create_traced_unfold self data :
  DollarBars.create_traced self data
  = for_range
      (DollarBars.loop_body DollarBars.emit_traced self data
         (running_sums data))
      (seq 0 (length data)) (DollarBars.mkState [] 0).
Proof.
  unfold DollarBars.create_traced, DollarBars.run_loop, running_sums.
  now rewrite zip_with_tick_product.
Qed.

(** ** The loop of [create] *)

Lemma loop_body_erase self data cum st i :
  DollarBars.loop_body DollarBars.make_bar self data cum (erase st) i
  = result_map erase
      (DollarBars.loop_body DollarBars.emit_traced self data cum st i).
Proof.
  unfold DollarBars.loop_body, DollarBars.emit_traced. simpl.
  destruct (index cum i) as [ci|e]; unfold_bind; [|reflexivity].
  destruct (index cum (DollarBars.current_bar_start st)) as [cs|e];
    unfold_bind; [|reflexivity].
  destruct (Qle_bool _ _ && _); [|reflexivity].
  destruct (DollarBars.make_bar _ _) as [b|e]; simpl; [|reflexivity].
  unfold erase. simpl. now rewrite fmap_app.
Qed.

Lemma for_range_erase self data cum idxs st :
  for_range (DollarBars.loop_body DollarBars.make_bar self data cum)
            idxs (erase st)
  = result_map erase
      (for_range (DollarBars.loop_body DollarBars.emit_traced self data cum)
                 idxs st).
Proof.
  revert st. induction idxs as [|i idxs IH]; intros st; simpl; [reflexivity|].
  rewrite loop_body_erase.
  destruct (DollarBars.loop_body DollarBars.emit_traced _ _ _ _ _) as [st'|e];
    unfold_bind; [apply IH|reflexivity].
Qed.

(** [create_bars] returns the bars of [create_traced], in the same order. *)
Lemma create_bars_traced self data :
  DollarBars.create_bars self data
  = result_map (λ st, (DollarBars.bars st).*1)
      (DollarBars.create_traced self data).
Proof.
  unfold DollarBars.create_bars, DollarBars.create_traced, DollarBars.run_loop.
  change (DollarBars.mkState (X:=Bar.t) [] 0)
    with (erase (DollarBars.mkState [] 0)).
  rewrite for_range_erase.
  destruct (for_range _ _ _) as [st|e]; reflexivity.
Qed.

Lemma loop_body_inv self data i st :
  i < length data ->
  loop_inv self data i st ->
  exists st',
    DollarBars.loop_body DollarBars.emit_traced self data
      (running_sums data) st i = Ok st'
    /\ loop_inv self data (i + 1) st'.
Proof.
  intros Hi (Hstart & Hcat & Hall).
  pose proof (length_running_sums data) as Hcum.
  unfold DollarBars.loop_body.
  destruct (index_lt (running_sums data) i ltac:(lia)) as (ci & Hci & ->).
  destruct (index_lt (running_sums data)
              (DollarBars.current_bar_start st) ltac:(lia))
    as (cs & Hcs & ->).
  unfold_bind.
  destruct (Qle_bool _ _ && _) eqn:Hcond.
  - apply andb_true_iff in Hcond as [Hthr Hmin].
    apply Qle_bool_iff in Hthr. apply Z.leb_le in Hmin.
    destruct (slice_nonempty data (DollarBars.current_bar_start st) i
                Hstart Hi) as (first & rest & Hslice & Hlen).
    unfold DollarBars.emit_traced. rewrite Hslice. simpl.
    eexists. split; [reflexivity|].
    split; [simpl; lia|]. split; simpl.
    + rewrite fmap_app, concat_app, Hcat. simpl. rewrite app_nil_r.
      rewrite <- Hslice. apply take_app_slice. lia.
    + apply Forall_app. split; [exact Hall|].
      apply Forall_singleton. exists first, rest. simpl.
      split; [reflexivity|]. split; [reflexivity|].
      split; [exact Hthr|]. rewrite Hlen. lia.
  - exists st. split; [reflexivity|].
    split; [lia|]. split; [exact Hcat|exact Hall].
Qed.

(** The traced loop never raises, and its invariant holds when it ends. *)
Lemma create_traced_inv self data :
  exists st,
    DollarBars.create_traced self data = Ok st
    /\ loop_inv self data (length data) st.
Proof.
  rewrite create_traced_unfold.
  apply (for_range_inv (loop_inv self data)).
  - intros i s [_ Hi] Hinv. apply loop_body_inv; [lia|exact Hinv].
  - split; [simpl; lia|]. split; [reflexivity|constructor].
Qed.

Lemma create_bars_ok self data :
  exists st,
    DollarBars.create_traced self data = Ok st
    /\ DollarBars.create_bars self data = Ok (DollarBars.bars st).*1
    /\ loop_inv self data (length data) st.
Proof.
  destruct (create_traced_inv self data) as (st & Hrun & Hinv).
  exists st. split; [exact Hrun|]. split; [|exact Hinv].
  now rewrite create_bars_traced, Hrun.
Qed.

Lemma create_ok self data :
  exists bars df,
    DollarBars.create_bars self data = Ok bars
    /\ DollarBars.create self data = Ok df.
Proof.
  destruct (create_bars_ok self data) as (st & _ & Hbars & _).
  unfold DollarBars.create. rewrite Hbars. unfold_bind.
  destruct ((DollarBars.bars st).*1); eauto.
Qed.

Lemma make_bar_summarises run cur b :
  DollarBars.make_bar run cur = Ok b -> summarises b run.
Proof.
  destruct run as [|first rest]; simpl; [discriminate|].
  intros [= <-]. unfold summarises. simpl.
  destruct (series_max_spec (Tick.price <$> rest) (Tick.price first))
    as [Hmax_in Hmax_ub].
  destruct (series_min_spec (Tick.price <$> rest) (Tick.price first))
    as [Hmin_in Hmin_lb].
  repeat split.
  - exists first. auto.
  - exists (List.last rest first). split; [apply last_cons_default|reflexivity].
  - exact Hmax_in.
  - intros tk Htk. apply Hmax_ub.
    change (Tick.price tk ∈ Tick.price <$> first :: rest).
    now apply list_elem_of_fmap_2.
  - exact Hmin_in.
  - intros tk Htk. apply Hmin_lb.
    change (Tick.price tk ∈ Tick.price <$> first :: rest).
    now apply list_elem_of_fmap_2.
Qed.

(** ** Where each bar starts and ends *)

Lemma trace_from_snoc {A : Type} (P : nat -> A * list Tick.t -> Prop)
    (start : nat) (items : list (A * list Tick.t)) (item : A * list Tick.t) :
  trace_from P start (items ++ [item])
  <-> trace_from P start items
      /\ P (start + length (concat items.*2)) item.
Proof.
  revert start. induction items as [|x items IH]; intros start.
  - simpl. rewrite Nat.add_0_r. tauto.
  - rewrite fmap_cons. cbn [app trace_from concat].
    rewrite IH, length_app, Nat.add_assoc. tauto.
Qed.

Lemma trace_from_impl {A : Type} (P P' : nat -> A * list Tick.t -> Prop)
    (start : nat) (items : list (A * list Tick.t)) :
  (forall s item, P s item -> P' s item) ->
  trace_from P start items -> trace_from P' start items.
Proof.
  intros Himpl. revert start.
  induction items as [|x items IH]; intros start; simpl; [tauto|].
  intros [Hx Hrest]. split; [apply Himpl, Hx|apply IH, Hrest].
Qed.

Lemma passes_lookup self cum start i cs ci :
  cum !! start = Some cs -> cum !! i = Some ci ->
  passes self cum start i
  = Qle_bool (DollarBars.threshold self) (fsub ci cs)
    && (DollarBars.min_ticks self <=? Z.of_nat i - Z.of_nat start)%Z.
Proof. intros Hcs Hci. unfold passes. now rewrite Hci, Hcs. Qed.

Lemma loop_body_inv_index self data i st :
  i < length data ->
  loop_inv_index self data i st ->
  exists st',
    DollarBars.loop_body DollarBars.emit_traced self data
      (running_sums data) st i = Ok st'
    /\ loop_inv_index self data (i + 1) st'.
Proof.
  intros Hi (Hstart & Hlen & Htrace & Hfail).
  pose proof (length_running_sums data) as Hcum.
  unfold DollarBars.loop_body.
  destruct (index_lt (running_sums data) i ltac:(lia)) as (ci & Hci & ->).
  destruct (index_lt (running_sums data)
              (DollarBars.current_bar_start st) ltac:(lia))
    as (cs & Hcs & ->).
  unfold_bind.
  rewrite <- (passes_lookup self _ _ _ cs ci Hcs Hci).
  destruct (passes _ _ _ _) eqn:Hcond.
  - destruct (slice_nonempty data (DollarBars.current_bar_start st) i
                Hstart Hi) as (first & rest & Hslice & Hrest).
    unfold DollarBars.emit_traced. rewrite Hslice. simpl.
    eexists. split; [reflexivity|].
    assert (Hlast : DollarBars.current_bar_start st
                    + S (length rest) - 1 = i) by lia.
    split; [simpl; lia|]. split; [|split]; simpl.
    + rewrite fmap_app, concat_app, length_app, Hlen. simpl.
      rewrite length_app. simpl. lia.
    + apply trace_from_snoc. split; [exact Htrace|].
      rewrite Hlen. simpl.
      split; [discriminate|]. split.
      * exists cs, ci. simpl. rewrite Hlast. auto.
      * unfold closes_first. simpl. rewrite Hlast.
        split; [exact Hcond|]. intros j Hj. apply Hfail. lia.
    + intros j Hj. lia.
  - exists st. split; [reflexivity|].
    split; [lia|]. split; [exact Hlen|]. split; [exact Htrace|].
    intros j Hj. destruct (decide (j = i)) as [->|Hne]; [exact Hcond|].
    apply Hfail. lia.
Qed.

(** When the loop ends, both invariants hold of the one final state. *)
Lemma create_traced_index self data :
  exists st,
    DollarBars.create_traced self data = Ok st
    /\ DollarBars.create_bars self data = Ok (DollarBars.bars st).*1
    /\ loop_inv self data (length data) st
    /\ loop_inv_index self data (length data) st.
Proof.
  destruct (create_bars_ok self data) as (st & Hrun & Hbars & Hinv).
  exists st. split; [exact Hrun|]. split; [exact Hbars|].
  split; [exact Hinv|].
  rewrite create_traced_unfold in Hrun.
  destruct (for_range_inv (loop_inv_index self data)
              (DollarBars.loop_body DollarBars.emit_traced self data
                 (running_sums data))
              (length data) 0 (DollarBars.mkState [] 0))
    as (st' & Hrun' & Hindex).
  - intros i s [_ Hi] Hinv'. apply loop_body_inv_index; [lia|exact Hinv'].
  - split; [simpl; lia|]. split; [reflexivity|].
    split; [exact I|]. simpl. intros j Hj. lia.
  - simpl in Hindex. congruence.
Qed.

(** The closing rule as the loop applies it: the [dollar_volume] of an
    emitted bar is [cum[i] - cum[start]], the running sum at its last tick
    less the running sum at its first tick; the product of the first tick
    is in both, so it is not in the difference.  And the bar has at least
    [min_ticks] ticks besides the first one. *)
Lemma emitted_bars_leave_first_tick_out self data :
  exists st,
    DollarBars.create_traced self data = Ok st
    /\ trace_from (stores_difference (running_sums data)) 0
         (DollarBars.bars st)
    /\ Forall (λ item,
                 (DollarBars.min_ticks self + 1
                  <= Z.of_nat (length item.2))%Z)
         (DollarBars.bars st).
Proof.
  destruct (create_traced_index self data)
    as (st & Hrun & _ & (_ & _ & Hall) & (_ & _ & Htrace & _)).
  exists st. split; [exact Hrun|]. split.
  - eapply trace_from_impl; [|exact Htrace].
    intros s item (_ & Hdiff & _). exact Hdiff.
  - eapply Forall_impl; [exact Hall|].
    intros item (first & rest & Hrun' & _ & _ & Hmin).
    rewrite Hrun'. simpl. lia.
Qed.

(** ** The bars of [create] *)

(** C2: the slices of the emitted bars, in order, followed by the dropped
    tail [data[current_bar_start:]], are exactly the input: no tick is in two
    bars, none between slices is skipped, and every emitted bar is built
    from one of those (non-empty) slices, never from the tail. *)
Theorem create_partitions_input self data :
  exists st,
    DollarBars.create_traced self data = Ok st
    /\ DollarBars.create_bars self data = Ok (DollarBars.bars st).*1
    /\ concat (DollarBars.bars st).*2
         ++ drop (DollarBars.current_bar_start st) data = data
    /\ Forall (λ item, item.2 ≠ []
                 /\ DollarBars.make_bar item.2 (Bar.dollar_volume item.1)
                    = Ok item.1)
         (DollarBars.bars st).
Proof.
  destruct (create_bars_ok self data) as (st & Hrun & Hbars & Hinv).
  destruct Hinv as (_ & Hcat & Hall).
  exists st. repeat split; [exact Hrun|exact Hbars| |].
  - rewrite Hcat. apply take_drop.
  - eapply Forall_impl; [exact Hall|].
    intros item (first & rest & Hrun' & Hbar & _). split; [|exact Hbar].
    rewrite Hrun'. discriminate.
Qed.

(** C4: every bar emitted by [create], under any configuration, has a
    [dollar_volume] field of at least [threshold] and was built from at
    least [min_ticks] ticks. *)
Theorem emitted_bars_meet_both_conditions self data :
  exists st,
    DollarBars.create_traced self data = Ok st
    /\ DollarBars.create_bars self data = Ok (DollarBars.bars st).*1
    /\ Forall (λ item,
                 (DollarBars.threshold self <= Bar.dollar_volume item.1)%Q
                 /\ (DollarBars.min_ticks self <= Z.of_nat (length item.2))%Z)
         (DollarBars.bars st).
Proof.
  destruct (create_bars_ok self data) as (st & Hrun & Hbars & Hinv).
  destruct Hinv as (_ & _ & Hall).
  exists st. repeat split; [exact Hrun|exact Hbars|].
  eapply Forall_impl; [exact Hall|].
  intros item (first & rest & Hrun' & _ & Hthr & Hmin).
  split; [exact Hthr|]. rewrite Hrun'. simpl. lia.
Qed.


(** ** The frames returned *)

(** [create_lazy] keeps one row per tick, whatever the configuration. *)
Lemma create_lazy_height self data :
  DataFrame.height (DollarBars.create_lazy self data) = length data.
Proof.
  unfold DataFrame.height, DollarBars.create_lazy. simpl.
  rewrite !length_zip_with, length_cumsum, !length_zip_with, !length_fmap.
  lia.
Qed.

(** ** Ticks and configurations that are not checked *)


(** C9, amended: the constructor raises for no [threshold] and no
    [min_ticks]; it stores both as given, and [create] runs under the
    configuration so built without raising. *)
Theorem init_checks_nothing (threshold : Q) (min_ticks : Z)
    (data : list Tick.t) :
  exists self df,
    DollarBars.__init__ threshold min_ticks = Ok self
    /\ DollarBars.threshold self = threshold
    /\ DollarBars.min_ticks self = min_ticks
    /\ DollarBars.create self data = Ok df.
Proof.
  destruct (create_ok (DollarBars.mk threshold min_ticks) data)
    as (bars & df & _ & Hdf).
  exists (DollarBars.mk threshold min_ticks), df.
  repeat split. exact Hdf.
Qed.

(** * Further properties of [create] *)

(** ** How many bars, and in which order *)

Lemma closed_by_timestamp self item :
  closed_by self item ->
  head (Tick.timestamp <$> item.2) = Some (Bar.timestamp item.1).
Proof.
  intros (first & rest & Hrun & Hbar & _). rewrite Hrun in *. simpl in *.
  injection Hbar as <-. reflexivity.
Qed.

Lemma closed_by_length self item :
  closed_by self item ->
  (Z.max 1 (DollarBars.min_ticks self + 1) <= Z.of_nat (length item.2))%Z.
Proof.
  intros (first & rest & Hrun & _ & _ & Hmin). rewrite Hrun. simpl. lia.
Qed.

Lemma length_concat_lower {A : Type} (m : Z) (runs : list (list A)) :
  Forall (λ run, (m <= Z.of_nat (length run))%Z) runs ->
  (Z.of_nat (length runs) * m <= Z.of_nat (length (concat runs)))%Z.
Proof.
  induction 1 as [|run runs Hrun _ IH]; simpl; [lia|].
  rewrite length_app. lia.
Qed.

(** X1: [create] emits at most as many bars as there are ticks, and at most
    one bar per [min_ticks + 1] ticks. *)
Theorem bars_need_enough_ticks (self : DollarBars.t) (data : list Tick.t) :
  exists bars,
    DollarBars.create_bars self data = Ok bars
    /\ length bars <= length data
    /\ (Z.of_nat (length bars) * (DollarBars.min_ticks self + 1)
        <= Z.of_nat (length data))%Z.
Proof.
  destruct (create_bars_ok self data) as (st & _ & Hbars & Hinv).
  destruct Hinv as (_ & Hcat & Hall).
  exists (DollarBars.bars st).*1. split; [exact Hbars|].
  assert (Hlen :
    (Z.of_nat (length (DollarBars.bars st))
       * Z.max 1 (DollarBars.min_ticks self + 1)
     <= Z.of_nat (length data))%Z).
  { pose proof (length_concat_lower
                  (Z.max 1 (DollarBars.min_ticks self + 1))
                  (DollarBars.bars st).*2) as Hsum.
    rewrite length_fmap, Hcat, length_take in Hsum.
    etransitivity; [apply Hsum|lia].
    apply Forall_fmap. eapply Forall_impl; [exact Hall|].
    intros item Hitem. apply (closed_by_length self item Hitem). }
  rewrite length_fmap. split; nia.
Qed.

Lemma price_order_of_summary (b : Bar.t) (run : list Tick.t) :
  summarises b run -> price_order b.
Proof.
  intros ((first & Hhead & Hopen & _) & (final & Hlast & Hclose)
          & (_ & Hhigh) & (_ & Hlow) & _).
  apply head_Some_elem_of in Hhead. apply last_Some_elem_of in Hlast.
  unfold price_order. rewrite Hopen, Hclose. auto.
Qed.

(** X2: in every bar emitted by [create], [low <= open <= high] and
    [low <= close <= high]. *)
Theorem emitted_bars_keep_price_order (self : DollarBars.t)
    (data : list Tick.t) :
  exists bars,
    DollarBars.create_bars self data = Ok bars /\ Forall price_order bars.
Proof.
  destruct (create_bars_ok self data) as (st & _ & Hbars & Hinv).
  destruct Hinv as (_ & _ & Hall).
  exists (DollarBars.bars st).*1. split; [exact Hbars|].
  apply Forall_fmap. eapply Forall_impl; [exact Hall|].
  intros item (first & rest & _ & Hbar & _). simpl.
  eapply price_order_of_summary, make_bar_summarises, Hbar.
Qed.

(** The first elements of consecutive runs of a sorted list are sorted. *)
Lemma heads_sorted {A : Type} (R : relation A) (runs : list (list A))
    (heads : list A) :
  Forall2 (λ run h, head run = Some h) runs heads ->
  StronglySorted R (concat runs) ->
  StronglySorted R heads.
Proof.
  induction 1 as [|run h runs heads Hh Hrest IH]; simpl; intros Hsorted;
    [constructor|].
  destruct run as [|x run]; [discriminate|]. injection Hh as ->.
  simpl in Hsorted. apply StronglySorted_cons in Hsorted as [Hlt Hsorted].
  apply StronglySorted_app_1_r in Hsorted as Hsorted'.
  apply Forall_app in Hlt as [_ Hlt].
  constructor; [apply IH, Hsorted'|].
  clear -Hrest Hlt. induction Hrest as [|run h' runs heads Hh' _ IH];
    [constructor|].
  simpl in Hlt. apply Forall_app in Hlt as [Hrun Hlt].
  constructor; [|apply IH, Hlt].
  apply head_Some_elem_of in Hh'.
  rewrite Forall_forall in Hrun. now apply Hrun.
Qed.

Lemma concat_fmap_runs {A B : Type} (f : A -> B) (runs : list (list A)) :
  concat (fmap (M:=list) f <$> runs) = f <$> concat runs.
Proof.
  induction runs as [|run runs IH]; [reflexivity|].
  rewrite fmap_cons. simpl. now rewrite fmap_app, IH.
Qed.

Lemma bar_timestamps_sorted (R : relation Z) `{!Transitive R}
    (self : DollarBars.t) (data : list Tick.t) :
  Sorted R (Tick.timestamp <$> data) ->
  exists bars,
    DollarBars.create_bars self data = Ok bars
    /\ Sorted R (Bar.timestamp <$> bars).
Proof.
  intros Hsorted. apply Sorted_StronglySorted in Hsorted; [|exact _].
  destruct (create_bars_ok self data) as (st & _ & Hbars & Hinv).
  destruct Hinv as (_ & Hcat & Hall).
  exists (DollarBars.bars st).*1. split; [exact Hbars|].
  apply StronglySorted_Sorted.
  apply (heads_sorted R
           (fmap (M:=list) Tick.timestamp <$> (DollarBars.bars st).*2)).
  - rewrite <- !list_fmap_compose. apply Forall2_fmap, Forall_Forall2_diag.
    eapply Forall_impl; [exact Hall|].
    intros item Hitem. apply (closed_by_timestamp self item Hitem).
  - rewrite concat_fmap_runs, Hcat, fmap_take.
    rewrite <- (take_drop (DollarBars.current_bar_start st)
                  (Tick.timestamp <$> data)) in Hsorted.
    now apply StronglySorted_app_1_l in Hsorted.
Qed.

(** X3: when the ticks come in non-decreasing timestamp order, so do the
    bars emitted by [create]. *)
Theorem bars_follow_tick_order (self : DollarBars.t) (data : list Tick.t) :
  Sorted Z.le (Tick.timestamp <$> data) ->
  exists bars,
    DollarBars.create_bars self data = Ok bars
    /\ Sorted Z.le (Bar.timestamp <$> bars).
Proof. apply bar_timestamps_sorted. exact _. Qed.

(** X4: when the timestamps of the ticks strictly increase, so do the
    timestamps of the bars emitted by [create]: no two bars share one. *)
Theorem bars_have_distinct_timestamps (self : DollarBars.t)
    (data : list Tick.t) :
  Sorted Z.lt (Tick.timestamp <$> data) ->
  exists bars,
    DollarBars.create_bars self data = Ok bars
    /\ Sorted Z.lt (Bar.timestamp <$> bars).
Proof. apply bar_timestamps_sorted. exact _. Qed.

(** ** Bars close at the first index that passes the test *)

(** X5: [create] closes each bar at the first index since the bar's start
    at which the test of line 76 passes, on the running sums as they were
    computed; and at no index of the dropped tail does the test pass. *)
Theorem bars_close_at_first_passing_tick (self : DollarBars.t)
    (data : list Tick.t) :
  exists st,
    DollarBars.create_traced self data = Ok st
    /\ DollarBars.create_bars self data = Ok (DollarBars.bars st).*1
    /\ trace_from (closes_first self (running_sums data)) 0
         (DollarBars.bars st)
    /\ length (concat (DollarBars.bars st).*2)
       = DollarBars.current_bar_start st
    /\ forall j,
         DollarBars.current_bar_start st <= j < length data ->
         passes self (running_sums data)
           (DollarBars.current_bar_start st) j = false.
Proof.
  destruct (create_traced_index self data)
    as (st & Hrun & Hbars & _ & (_ & Hlen & Htrace & Hfail)).
  exists st. split; [exact Hrun|]. split; [exact Hbars|].
  split; [|split; [exact Hlen|exact Hfail]].
  eapply trace_from_impl; [|exact Htrace].
  intros s item (_ & _ & Hfirst). exact Hfirst.
Qed.

(** ** What the [dollar_volume] of a bar holds *)

(** X8: the running sums are the product of the first tick, and then each
    one the sum before it plus the product of its tick; the [dollar_volume]
    of an emitted bar is [cum[i] - cum[start]], the running sum at the last
    tick of the bar less the running sum at its first tick, which holds the
    product of that first tick already; and the bar has at least
    [min_ticks + 1] ticks. *)
Theorem dollar_volume_leaves_first_tick_out (self : DollarBars.t)
    (data : list Tick.t) :
  exists st,
    DollarBars.create_traced self data = Ok st
    /\ DollarBars.create_bars self data = Ok (DollarBars.bars st).*1
    /\ (forall tk, data !! 0 = Some tk ->
          running_sums data !! 0 = Some (tick_product tk))
    /\ (forall k c tk,
          running_sums data !! k = Some c -> data !! S k = Some tk ->
          running_sums data !! S k = Some (fadd c (tick_product tk)))
    /\ trace_from (stores_difference (running_sums data)) 0
         (DollarBars.bars st)
    /\ Forall (λ item,
                 (DollarBars.min_ticks self + 1
                  <= Z.of_nat (length item.2))%Z)
         (DollarBars.bars st).
Proof.
  destruct (create_traced_index self data)
    as (st & Hrun & Hbars & (_ & _ & Hall) & (_ & _ & Htrace & _)).
  exists st. split; [exact Hrun|]. split; [exact Hbars|].
  split; [apply running_sums_first|]. split; [apply running_sums_step|].
  split.
  - eapply trace_from_impl; [|exact Htrace].
    intros s item (_ & Hdiff & _). exact Hdiff.
  - eapply Forall_impl; [exact Hall|].
    intros item (first & rest & Hrun' & _ & _ & Hmin).
    rewrite Hrun'. simpl. lia.
Qed.

(** ** Later ticks do not change earlier bars *)

Lemma cumsum_from_lookup_app (l1 l2 : list Q) (acc : Q) (i : nat) :
  i < length l1 ->
  cumsum_from acc (l1 ++ l2) !! i = cumsum_from acc l1 !! i.
Proof.
  revert acc i. induction l1 as [|x l1 IH]; intros acc i Hi; simpl in *;
    [lia|].
  destruct i as [|i]; [reflexivity|]. simpl. apply IH. lia.
Qed.

Lemma cumsum_lookup_app (l1 l2 : list Q) (i : nat) :
  i < length l1 -> cumsum (l1 ++ l2) !! i = cumsum l1 !! i.
Proof.
  destruct l1 as [|x l1]; simpl; intros Hi; [lia|].
  destruct i as [|i]; [reflexivity|]. simpl.
  apply cumsum_from_lookup_app. lia.
Qed.

Lemma slice_app_le {A : Type} (l1 l2 : list A) (a b : nat) :
  b <= length l1 -> slice (l1 ++ l2) a b = slice l1 a b.
Proof.
  intros Hb. unfold slice. rewrite drop_app.
  apply take_app_le. rewrite length_drop. lia.
Qed.

Lemma for_range_app {St : Type} (body : St -> nat -> result St)
    (idxs1 idxs2 : list nat) (st : St) :
  for_range body (idxs1 ++ idxs2) st
  = st' ← for_range body idxs1 st; for_range body idxs2 st'.
Proof.
  revert st. induction idxs1 as [|i idxs1 IH]; intros st; simpl;
    [reflexivity|].
  destruct (body st i) as [st'|e]; unfold_bind; [apply IH|reflexivity].
Qed.

(** Two loop bodies that agree where an invariant holds run alike. *)
Lemma for_range_agree {St : Type} (Inv : nat -> St -> Prop)
    (body1 body2 : St -> nat -> result St) (k a : nat) (st : St) :
  (forall i s, a <= i < a + k -> Inv i s -> body2 s i = body1 s i) ->
  (forall i s, a <= i < a + k -> Inv i s ->
     exists s', body1 s i = Ok s' /\ Inv (i + 1) s') ->
  Inv a st ->
  for_range body2 (seq a k) st = for_range body1 (seq a k) st.
Proof.
  revert a st. induction k as [|k IH]; intros a st Hagree Hstep Hinv; simpl;
    [reflexivity|].
  rewrite (Hagree a st) by (lia || exact Hinv).
  destruct (Hstep a st ltac:(lia) Hinv) as (s' & -> & Hinv'). unfold_bind.
  apply IH.
  - intros i s Hi HI. apply Hagree; [lia|exact HI].
  - intros i s Hi HI. apply Hstep; [lia|exact HI].
  - now replace (S a) with (a + 1) by lia.
Qed.

Lemma loop_body_app {X : Type} (emit : list Tick.t -> Q -> result X)
    self data1 data2 (st : DollarBars.LoopState X) i :
  DollarBars.current_bar_start st <= i -> i < length data1 ->
  DollarBars.loop_body emit self (data1 ++ data2)
    (running_sums (data1 ++ data2)) st i
  = DollarBars.loop_body emit self data1 (running_sums data1) st i.
Proof.
  intros Hstart Hi. unfold DollarBars.loop_body, index, running_sums.
  rewrite fmap_app, !cumsum_lookup_app by (rewrite length_fmap; lia).
  now rewrite slice_app_le by lia.
Qed.

Lemma loop_body_extends {X : Type} (emit : list Tick.t -> Q -> result X)
    self data cum (st st' : DollarBars.LoopState X) i :
  DollarBars.loop_body emit self data cum st i = Ok st' ->
  DollarBars.bars st `prefix_of` DollarBars.bars st'.
Proof.
  unfold DollarBars.loop_body.
  destruct (index cum i) as [ci|e]; unfold_bind; [|discriminate].
  destruct (index cum (DollarBars.current_bar_start st)) as [cs|e];
    unfold_bind; [|discriminate].
  destruct (Qle_bool _ _ && _).
  - destruct (emit _ _) as [bar|e]; simpl; [|discriminate].
    intros [= <-]. simpl. now apply prefix_app_r.
  - intros [= <-]. reflexivity.
Qed.

Lemma for_range_extends {X : Type} (emit : list Tick.t -> Q -> result X)
    self data cum idxs (st st' : DollarBars.LoopState X) :
  for_range (DollarBars.loop_body emit self data cum) idxs st = Ok st' ->
  DollarBars.bars st `prefix_of` DollarBars.bars st'.
Proof.
  revert st. induction idxs as [|i idxs IH]; intros st; simpl.
  - intros [= <-]. reflexivity.
  - destruct (DollarBars.loop_body emit self data cum st i) as [s|e] eqn:Hs;
      unfold_bind; [|discriminate].
    intros Hrun. etransitivity; [eapply loop_body_extends, Hs|].
    apply IH, Hrun.
Qed.

(** X7: ticks that come later leave the bars of the earlier ticks as they
    are: the bars of [data1 ++ data2] begin with the bars of [data1]. *)
Theorem later_ticks_keep_earlier_bars (self : DollarBars.t)
    (data1 data2 : list Tick.t) :
  exists bars1 more,
    DollarBars.create_bars self data1 = Ok bars1
    /\ DollarBars.create_bars self (data1 ++ data2) = Ok (bars1 ++ more).
Proof.
  destruct (create_traced_inv self data1) as (st1 & Hrun1 & _).
  destruct (create_traced_inv self (data1 ++ data2)) as (st2 & Hrun2 & _).
  assert (Hext : DollarBars.bars st1 `prefix_of` DollarBars.bars st2).
  { rewrite create_traced_unfold in Hrun1, Hrun2.
    rewrite length_app, seq_app, for_range_app in Hrun2. simpl in Hrun2.
    rewrite (for_range_agree (loop_inv self data1)
               (DollarBars.loop_body DollarBars.emit_traced self data1
                  (running_sums data1))) in Hrun2.
    - rewrite Hrun1 in Hrun2.
      unfold mbind, result_mbind, result_bind in Hrun2.
      eapply for_range_extends, Hrun2.
    - intros i s [_ Hi] (Hstart & _). apply loop_body_app; [exact Hstart|lia].
    - intros i s [_ Hi] Hinv. apply loop_body_inv; [lia|exact Hinv].
    - split; [simpl; lia|]. split; [reflexivity|constructor]. }
  destruct Hext as [more Hmore].
  exists (DollarBars.bars st1).*1, more.*1.
  rewrite !create_bars_traced, Hrun1, Hrun2. simpl.
  now rewrite Hmore, fmap_app.
Qed.

(** ** The configuration under which every tick closes a bar *)

Lemma one_tick_bars self cum (items : list (Bar.t * list Tick.t)) :
  (forall j, j < length cum -> passes self cum j j = true) ->
  forall start,
    trace_from (closed_at self cum) start items ->
    Forall (closed_by self) items ->
    Forall2 (λ b row, one_tick_bar b row.1 row.2) items.*1
      (zip (concat items.*2) (drop start cum)).
Proof.
  intros Hpass. induction items as [|item items IH]; intros start;
    [constructor|].
  rewrite !fmap_cons. cbn [trace_from concat].
  intros [(_ & (cs & ci & Hcs & Hci & Hdv) & (_ & Hnone)) Hrest] Hall.
  apply Forall_cons in Hall as [(first & rest & Hitem & Hbar & _) Hall].
  assert (Hstart : start < length cum) by (eapply lookup_lt_Some, Hcs).
  destruct rest as [|second rest].
  - rewrite Hitem in *. simpl in Hci, Hrest.
    replace (start + 1 - 1) with start in Hci by lia.
    assert (ci = cs) as -> by congruence.
    erewrite drop_S by exact Hcs. simpl.
    constructor.
    + simpl in Hbar. injection Hbar as Hb.
      rewrite <- Hb in *. simpl in *.
      unfold one_tick_bar. simpl. repeat split. exact Hdv.
    + replace (S start) with (start + 1) by lia. apply IH; assumption.
  - exfalso. rewrite Hitem in Hnone. simpl in Hnone.
    specialize (Hnone start ltac:(lia)). rewrite Hpass in Hnone by lia.
    discriminate.
Qed.

(** X10: with [min_ticks <= 0] and a [threshold] that no difference
    [c - c] of a running sum with itself falls short of, every tick closes
    a bar of its own: [create] emits one bar per tick, with the tick's
    price as open, high, low and close, [Series.sum()] of the tick's volume
    alone as volume, and [c - c] as [dollar_volume], [c] being the running
    sum at the tick. *)
Theorem nonpositive_configuration_gives_one_bar_per_tick
    (self : DollarBars.t) (data : list Tick.t) :
  (DollarBars.min_ticks self <= 0)%Z ->
  Forall (λ c, (DollarBars.threshold self <= fsub c c)%Q)
    (running_sums data) ->
  exists bars,
    DollarBars.create_bars self data = Ok bars
    /\ Forall2 (λ b row, one_tick_bar b row.1 row.2) bars
         (zip data (running_sums data)).
Proof.
  intros Hmin Hthr.
  assert (Hpass : forall j, j < length (running_sums data) ->
            passes self (running_sums data) j j = true).
  { intros j Hj. destruct (lookup_lt_is_Some_2 _ _ Hj) as [c Hc].
    rewrite (passes_lookup self _ _ _ c c Hc Hc).
    apply andb_true_iff. split.
    - apply Qle_bool_iff. rewrite Forall_forall in Hthr. apply Hthr.
      eapply list_elem_of_lookup_2, Hc.
    - apply Z.leb_le. lia. }
  destruct (create_traced_index self data)
    as (st & _ & Hbars & (Hstart & Hcat & Hall) & (_ & _ & Htrace & Hfail)).
  exists (DollarBars.bars st).*1. split; [exact Hbars|].
  pose proof (one_tick_bars self _ _ Hpass 0 Htrace Hall) as Hone.
  rewrite drop_0, Hcat in Hone.
  rewrite take_ge in Hone; [exact Hone|].
  destruct (decide (length data <= DollarBars.current_bar_start st))
    as [Hle|Hgt]; [exact Hle|exfalso].
  specialize (Hfail (DollarBars.current_bar_start st) ltac:(lia)).
  rewrite Hpass in Hfail by (rewrite length_running_sums; lia).
  discriminate.
Qed.

End AnyRounding.

(** * Evaluations

    The tables evaluated below hold small integers, on which binary64
    arithmetic is exact: they are evaluated with the exact operations. *)

#[global] Existing Instance exact_rounding.

(** ** The bars of [create] *)

(** C1, evaluated: with [threshold = 50000] and [min_ticks = 1], the first
    tick of two (price 100, volume 1000) already carries 100000 >= 50000
    and is one tick, yet no bar is closed at it: a single tick gives no bar,
    and two ticks give one bar of both ticks whose [dollar_volume] is
    100000, the second tick's value only, while the ticks of the bar carry
    200000. *)
Theorem create_closes_one_tick_late :
  let self := DollarBars.mk 50000 1 in
  let two_tick_bar := Bar.mk 0 100 100 100 100 2000 100000 in
  (DollarBars.threshold self <= dollar_value (constant_ticks 1))%Q
  /\ (DollarBars.min_ticks self <= Z.of_nat (length (constant_ticks 1)))%Z
  /\ DollarBars.create_bars self (constant_ticks 1) = Ok []
  /\ DollarBars.create_traced self (constant_ticks 2)
     = Ok (DollarBars.mkState [(two_tick_bar, constant_ticks 2)] 2)
  /\ (dollar_value (constant_ticks 2) == 200000)%Q
  /\ ~ (Bar.dollar_volume two_tick_bar == dollar_value (constant_ticks 2))%Q.
Proof.
  cbv zeta. split; [vm_compute; discriminate|].
  split; [vm_compute; discriminate|].
  split; [vm_compute; reflexivity|].
  split; [vm_compute; reflexivity|].
  split; [vm_compute; reflexivity|].
  vm_compute. discriminate.
Qed.

(** C3, evaluated: on 100 ticks of price 100.0 and volume 1000 with
    [threshold = 50000] and [min_ticks = 1], [create] emits 50 bars, each
    built from two ticks, with [volume = 2000] and [dollar_volume = 100000]. *)
Theorem scenario_A_gives_fifty_two_tick_bars :
  let self := DollarBars.mk 50000 1 in
  DollarBars.create_bars self (constant_ticks 100)
  = Ok ((λ k, Bar.mk (Z.of_nat (2 * k)) 100 100 100 100 2000 100000)
          <$> seq 0 50)
  /\ result_map (λ st, length <$> (DollarBars.bars st).*2)
       (DollarBars.create_traced self (constant_ticks 100))
     = Ok (replicate 50 2).
Proof.
  cbv zeta. split; vm_compute; reflexivity.
Qed.

(** ** The frames returned *)

(** C6, evaluated: on a zero-row input the loop closes no bar and nothing
    is raised, and line 105 hands the dict of data type objects to
    [pl.DataFrame] as its data: the frame returned has one row, whose cells
    are those objects, in columns of type [Object].  The column names are
    those of a frame of bars; the column types and the height are not. *)
Theorem create_on_empty_input (self : DollarBars.t) :
  let frame_of_bars :=
    DollarBars.create (DollarBars.mk 50000 1) (constant_ticks 2) in
  exists df,
    DollarBars.create_bars self [] = Ok []
    /\ DollarBars.create self [] = Ok df
    /\ DataFrame.height df = 1
    /\ DataFrame.rows df
       = [[ PyDataType Datetime; PyDataType Float64; PyDataType Float64;
            PyDataType Float64; PyDataType Float64; PyDataType Float64;
            PyDataType Float64 ]]
    /\ DataFrame.schema df
       = [ ("timestamp", Object); ("open", Object); ("high", Object);
           ("low", Object); ("close", Object); ("volume", Object);
           ("dollar_volume", Object) ]
    /\ result_map DataFrame.columns frame_of_bars = Ok (DataFrame.columns df)
    /\ result_map DataFrame.schema frame_of_bars
       = Ok [ ("timestamp", Datetime); ("open", Float64); ("high", Float64);
              ("low", Float64); ("close", Float64); ("volume", Float64);
              ("dollar_volume", Float64) ].
Proof.
  cbv zeta. eexists. split; [reflexivity|]. split; [reflexivity|].
  repeat split; vm_compute; reflexivity.
Qed.

(** C7, evaluated: on two ticks of price 100 and volume 1000 with
    [threshold = 50000] and [min_ticks = 1], [create] returns one bar of
    seven fields, and [create_lazy] returns the two ticks themselves, each
    with its dollar value and the running sum next to it. *)
Theorem create_lazy_returns_ticks_not_bars :
  let self := DollarBars.mk 50000 1 in
  DollarBars.create self (constant_ticks 2)
  = Ok {| DataFrame.schema :=
            [ ("timestamp", Datetime); ("open", Float64); ("high", Float64);
              ("low", Float64); ("close", Float64); ("volume", Float64);
              ("dollar_volume", Float64) ];
          DataFrame.rows :=
            [[ PyDatetime 0; PyFloat 100; PyFloat 100; PyFloat 100;
               PyFloat 100; PyFloat 2000; PyFloat 100000 ]] |}
  /\ DollarBars.create_lazy self (constant_ticks 2)
     = {| DataFrame.schema :=
            [ ("timestamp", Datetime); ("price", Float64);
              ("volume", Float64); ("dollar_volume", Float64);
              ("cum_dollar_volume", Float64) ];
          DataFrame.rows :=
            [[ PyDatetime 0; PyFloat 100; PyFloat 1000; PyFloat 100000;
               PyFloat 100000 ];
             [ PyDatetime 1; PyFloat 100; PyFloat 1000; PyFloat 100000;
               PyFloat 200000 ]] |}
  /\ DollarBars.create self (constant_ticks 2)
     ≠ Ok (DollarBars.create_lazy self (constant_ticks 2)).
Proof.
  cbv zeta. split; [vm_compute; reflexivity|].
  split; [vm_compute; reflexivity|].
  vm_compute. discriminate.
Qed.

(** ** Ticks and configurations that are not checked *)


(** C9 as stated fails: [min_ticks = 0] is accepted by the constructor and
    stored as 0. *)
Lemma init_accepts_min_ticks_zero :
  DollarBars.__init__ 100000 0 = Ok (DollarBars.mk 100000 0)
  /\ ~ (exists e, DollarBars.__init__ 100000 0 = Raised e).
Proof.
  split; [reflexivity|]. intros [e He]. discriminate.
Qed.

(** ** The order of bars, and one bar per tick *)

Lemma bars_follow_tick_order_witness :
  exists bars,
    DollarBars.create_bars (DollarBars.mk 50000 1) (constant_ticks 4)
    = Ok bars
    /\ Sorted Z.le (Bar.timestamp <$> bars).
Proof.
  apply bars_follow_tick_order. vm_compute.
  repeat constructor; discriminate.
Defined.

Lemma bars_have_distinct_timestamps_witness :
  exists bars,
    DollarBars.create_bars (DollarBars.mk 50000 1) (constant_ticks 4)
    = Ok bars
    /\ Sorted Z.lt (Bar.timestamp <$> bars).
Proof.
  apply bars_have_distinct_timestamps. vm_compute.
  repeat constructor.
Defined.

Lemma nonpositive_configuration_gives_one_bar_per_tick_witness :
  exists bars,
    DollarBars.create_bars (DollarBars.mk 0 0) (constant_ticks 3) = Ok bars
    /\ Forall2 (λ b row, one_tick_bar b row.1 row.2) bars
         (zip (constant_ticks 3) (running_sums (constant_ticks 3))).
Proof.
  apply nonpositive_configuration_gives_one_bar_per_tick.
  - vm_compute. discriminate.
  - vm_compute. repeat constructor; discriminate.
Defined.

(** ** validate_schema *)

Lemma validate_items_true (actual : gmap string DataType) items :
  validate_items actual items = (true, None)
  <-> Forall (λ item, actual !! item.1 = Some item.2) items.
Proof.
  induction items as [|[col ty] items IH]; simpl.
  - split; [constructor|reflexivity].
  - destruct (actual !! col) as [aty|] eqn:Hlook.
    + destruct (decide (aty ≠ ty)) as [Hne|Heq].
      * split; [discriminate|]. intros HF.
        apply Forall_cons in HF as [Hhd _]. simpl in Hhd. congruence.
      * apply dec_stable in Heq. subst aty. rewrite IH. split.
        -- intros HF. apply Forall_cons. split; [exact Hlook|exact HF].
        -- intros HF. now apply Forall_cons in HF as [_ HF].
    + split; [discriminate|]. intros HF.
      apply Forall_cons in HF as [Hhd _]. simpl in Hhd. congruence.
Qed.

Lemma validate_items_ext (actual actual' : gmap string DataType) items :
  (forall col, col ∈ items.*1 -> actual' !! col = actual !! col) ->
  validate_items actual' items = validate_items actual items.
Proof.
  induction items as [|[col ty] items IH]; intros Hagree; simpl;
    [reflexivity|].
  rewrite (Hagree col) by (simpl; left).
  destruct (actual !! col) as [aty|]; [|reflexivity].
  destruct (decide (aty ≠ ty)); [reflexivity|].
  apply IH. intros c Hc. apply Hagree. simpl. now right.
Qed.

Lemma validate_items_first_offender (actual : gmap string DataType) items :
  validate_items actual items ≠ (true, None) ->
  exists pre col ty post,
    items = pre ++ (col, ty) :: post
    /\ Forall (λ item, actual !! item.1 = Some item.2) pre
    /\ ((actual !! col = None
         /\ validate_items actual items
            = (false, Some ("Missing column: " +:+ col)))
        \/ (exists aty,
              actual !! col = Some aty /\ aty ≠ ty
              /\ validate_items actual items
                 = (false,
                    Some ("Type mismatch for " +:+ col +:+ ": expected "
                          +:+ dtype_str ty +:+ ", got " +:+ dtype_str aty)))).
Proof.
  induction items as [|[col ty] items IH]; simpl; [congruence|].
  intros Hfail.
  destruct (actual !! col) as [aty|] eqn:Hlook.
  - destruct (decide (aty ≠ ty)) as [Hne|Heq].
    + exists [], col, ty, items. split; [reflexivity|].
      split; [constructor|]. right. exists aty. auto.
    + apply dec_stable in Heq. subst aty.
      destruct (IH Hfail) as (pre & c & t & post & -> & Hpre & Hmsg).
      exists ((col, ty) :: pre), c, t, post. split; [reflexivity|].
      split; [|exact Hmsg]. apply Forall_cons. split; [exact Hlook|exact Hpre].
  - exists [], col, ty, items. split; [reflexivity|].
    split; [constructor|]. left. auto.
Qed.

(** C10: [validate_schema] returns [(True, None)] exactly when every
    expected column is in the table with the expected type; tables that
    agree on the expected columns get the same answer, whatever other
    columns they have; and a failure names the first expected column, in
    the order of [expected_schema], that is missing or of another type,
    with the message of that case. *)
Theorem validate_schema_spec (data : DataFrame.t)
    (expected_schema : list (string * DataType)) :
  (validate_schema data expected_schema = (true, None)
   <-> Forall (column_ok data) expected_schema)
  /\ (forall data',
        (forall col, col ∈ expected_schema.*1 ->
           actual_schema data' !! col = actual_schema data !! col) ->
        validate_schema data' expected_schema
        = validate_schema data expected_schema)
  /\ (validate_schema data expected_schema ≠ (true, None) ->
      exists pre col ty post,
        expected_schema = pre ++ (col, ty) :: post
        /\ Forall (column_ok data) pre
        /\ ~ column_ok data (col, ty)
        /\ ((actual_schema data !! col = None
             /\ validate_schema data expected_schema
                = (false, Some ("Missing column: " +:+ col)))
            \/ (exists aty,
                  actual_schema data !! col = Some aty /\ aty ≠ ty
                  /\ validate_schema data expected_schema
                     = (false,
                        Some ("Type mismatch for " +:+ col +:+ ": expected "
                              +:+ dtype_str ty +:+ ", got "
                              +:+ dtype_str aty))))).
Proof.
  unfold validate_schema, column_ok. fold (actual_schema data).
  split; [apply validate_items_true|].
  split.
  - intros data' Hagree. fold (actual_schema data').
    now apply validate_items_ext.
  - intros Hfail.
    destruct (validate_items_first_offender _ _ Hfail)
      as (pre & col & ty & post & Hsplit & Hpre & Hmsg).
    exists pre, col, ty, post. split; [exact Hsplit|].
    split; [exact Hpre|]. split; [|exact Hmsg]. simpl.
    destruct Hmsg as [[Hnone _]|(aty & Hsome & Hne & _)]; congruence.
Qed.

(** The table of three ticks' columns against a schema whose second
    column has another type and whose third column is missing: the answer
    is not [(True, None)], so not every expected column is met. *)
Lemma validate_schema_spec_witness :
  let data :=
    DataFrame.mk
      [("timestamp", Datetime); ("price", Float64); ("volume", Float64)]
      [] in
  let expected_schema :=
    [("price", Float64); ("volume", Int64); ("bid", Float64)] in
  validate_schema data expected_schema
  = (false, Some "Type mismatch for volume: expected Int64, got Float64")
  /\ ~ Forall (column_ok data) expected_schema.
Proof.
  cbv zeta. split; [vm_compute; reflexivity|].
  intros Hall.
  apply (proj1 (validate_schema_spec _ _)) in Hall.
  vm_compute in Hall. discriminate.
Defined.

(** ** More on [validate_schema] *)

(** X13: a table whose column names are distinct passes [validate_schema]
    against any selection of its own columns with their own types, in any
    order; in particular against its own schema. *)
Theorem validate_schema_accepts_own_columns (data : DataFrame.t)
    (expected_schema : list (string * DataType)) :
  NoDup (DataFrame.columns data) ->
  expected_schema ⊆ DataFrame.schema data ->
  validate_schema data expected_schema = (true, None).
Proof.
  intros Hnodup Hsub. unfold validate_schema.
  apply validate_items_true, Forall_forall. intros [col ty] Hin. simpl.
  apply elem_of_list_to_map_1; [exact Hnodup|]. now apply Hsub.
Qed.

Lemma validate_schema_accepts_own_columns_witness :
  validate_schema
    (DollarBars.create_lazy (DollarBars.mk 50000 1) (constant_ticks 2))
    [("cum_dollar_volume", Float64); ("timestamp", Datetime)]
  = (true, None).
Proof.
  apply validate_schema_accepts_own_columns.
  - apply (bool_decide_unpack _). vm_compute. exact I.
  - apply (bool_decide_unpack _). vm_compute. exact I.
Defined.

(** X14: checking [e1 ++ e2] is checking [e1] and, only if [e1] passes,
    checking [e2]: a failure in [e1] is the answer whatever [e2] holds. *)
Theorem validate_schema_app (data : DataFrame.t)
    (e1 e2 : list (string * DataType)) :
  validate_schema data (e1 ++ e2)
  = if (validate_schema data e1).1
    then validate_schema data e2
    else validate_schema data e1.
Proof.
  unfold validate_schema.
  induction e1 as [|[col ty] e1 IH]; simpl; [reflexivity|].
  destruct (list_to_map (DataFrame.schema data) !! col) as [aty|];
    [|reflexivity].
  destruct (decide (aty ≠ ty)); [reflexivity|exact IH].
Qed.

Lemma validate_items_accepts (actual : gmap string DataType) items :
  (validate_items actual items).1 = true
  <-> validate_items actual items = (true, None).
Proof.
  split; [|now intros ->].
  induction items as [|[col ty] items IH]; simpl; [reflexivity|].
  destruct (actual !! col) as [aty|]; [|discriminate].
  destruct (decide (aty ≠ ty)); [discriminate|exact IH].
Qed.

(** X15: whether [validate_schema] accepts does not depend on the order of
    the expected columns (the message of a failure may). *)
Theorem validate_schema_order_irrelevant (data : DataFrame.t)
    (e1 e2 : list (string * DataType)) :
  e1 ≡ₚ e2 ->
  (validate_schema data e1).1 = (validate_schema data e2).1.
Proof.
  intros Hperm. unfold validate_schema. apply eq_true_iff_eq.
  rewrite !validate_items_accepts, !validate_items_true.
  now rewrite Hperm.
Qed.

Lemma validate_schema_order_irrelevant_witness :
  let data :=
    DollarBars.create_lazy (DollarBars.mk 50000 1) (constant_ticks 2) in
  (validate_schema data [("price", Float64); ("bid", Float64)]).1
  = (validate_schema data [("bid", Float64); ("price", Float64)]).1.
Proof.
  cbv zeta. apply validate_schema_order_irrelevant. apply Permutation_swap.
Defined.

(** * Properties of [check_data_quality] *)

(** ** Duplicates *)

Lemma length_remove_dups {A : Type} `{EqDecision A} (l : list A) :
  length (remove_dups l) <= length l.
Proof.
  induction l as [|x l IH]; simpl; [lia|].
  destruct (decide_rel elem_of x l); simpl; lia.
Qed.

Lemma remove_dups_nonempty {A : Type} `{EqDecision A} (l : list A) :
  l ≠ [] -> 0 < length (remove_dups l).
Proof.
  intros Hne. destruct (remove_dups l) as [|y k] eqn:Hk; simpl; [|lia].
  destruct l as [|x l]; [congruence|].
  assert (Hx : x ∈ remove_dups (x :: l))
    by (apply elem_of_remove_dups; left).
  rewrite Hk in Hx. now apply elem_of_nil in Hx.
Qed.

Lemma length_remove_dups_eq {A : Type} `{EqDecision A} (l : list A) :
  length (remove_dups l) = length l <-> NoDup l.
Proof.
  induction l as [|x l IH]; simpl.
  - split; [constructor|reflexivity].
  - pose proof (length_remove_dups l) as Hle.
    destruct (decide_rel elem_of x l) as [Hin|Hnin]; simpl.
    + split; [lia|]. intros Hnd. apply NoDup_cons in Hnd as [Hx _].
      contradiction.
    + split.
      * intros Hlen. apply NoDup_cons. split; [exact Hnin|].
        apply IH. lia.
      * intros Hnd. apply NoDup_cons in Hnd as [_ Hnd].
        apply IH in Hnd. lia.
Qed.

(** X16: [num_duplicates] is the number of rows that repeat an earlier
    row: it is never negative, it is less than the number of rows of a
    table that has rows, and it is 0 exactly when no two rows are equal. *)
Theorem num_duplicates_counts_repeated_rows (data : Table.t)
    (check_missing check_outliers : bool) :
  exists d,
    check_data_quality data check_missing true check_outliers
      !! "num_duplicates" = Some (RInt d)
    /\ (0 <= d)%Z
    /\ (Table.rows data ≠ [] -> d < Z.of_nat (Table.height data))%Z
    /\ (d = 0%Z <-> NoDup (Table.rows data)).
Proof.
  eexists. split.
  { unfold check_data_quality.
    destruct check_missing, check_outliers; simpl;
      rewrite ?(lookup_insert_ne (M:=gmap string)) by done;
      apply lookup_insert_eq. }
  unfold Table.height, Table.unique. simpl.
  pose proof (length_remove_dups (Table.rows data)) as Hle.
  split; [lia|]. split.
  - intros Hne. apply remove_dups_nonempty in Hne. lia.
  - rewrite <- length_remove_dups_eq. lia.
Qed.

Lemma percentage_bounds (d h : Z) :
  (0 <= d < h)%Z ->
  (0 <= Qc_of_Z d / Qc_of_Z h * Qc_of_Z 100)%Qc
  /\ (Qc_of_Z d / Qc_of_Z h * Qc_of_Z 100 < Qc_of_Z 100)%Qc.
Proof.
  intros [Hd Hh].
  assert (Hq : (0 <= inject_Z d / inject_Z h)%Q
               /\ (inject_Z d / inject_Z h < 1)%Q).
  { assert (Hh' : (0 < inject_Z h)%Q) by (rewrite <- (Zlt_Qlt 0); lia).
    split.
    - apply Qle_shift_div_l; [exact Hh'|]. rewrite Qmult_0_l.
      rewrite <- (Zle_Qle 0). exact Hd.
    - apply Qlt_shift_div_r; [exact Hh'|]. rewrite Qmult_1_l.
      rewrite <- Zlt_Qlt. exact Hh. }
  unfold Qcle, Qclt, Qcdiv, Qcmult, Qcinv. simpl.
  rewrite !Qred_correct.
  unfold Qdiv in Hq. set (x := (inject_Z d * / inject_Z h)%Q) in *.
  change (inject_Z 100) with 100%Q. destruct Hq. split; lra.
Qed.

(** X17: [duplicate_percentage] is at least 0 and less than 100; it is 0
    when no two rows are equal, for a table without rows too, where
    nothing is divided. *)
Theorem duplicate_percentage_in_range (data : Table.t)
    (check_missing check_outliers : bool) :
  exists p,
    check_data_quality data check_missing true check_outliers
      !! "duplicate_percentage" = Some (RFloat p)
    /\ (0 <= p)%Qc /\ (p < Qc_of_Z 100)%Qc
    /\ (NoDup (Table.rows data) -> p = 0%Qc).
Proof.
  eexists. split.
  { unfold check_data_quality.
    destruct check_missing, check_outliers; simpl;
      rewrite ?(lookup_insert_ne (M:=gmap string)) by done;
      apply lookup_insert_eq. }
  unfold Table.height, Table.unique. simpl.
  pose proof (length_remove_dups (Table.rows data)) as Hle.
  case_bool_decide as Hrows.
  - assert (Hne : Table.rows data ≠ [])
      by (intros Hnil; rewrite Hnil in Hrows; simpl in Hrows; lia).
    apply remove_dups_nonempty in Hne.
    split; [|split].
    + apply percentage_bounds. lia.
    + apply percentage_bounds. lia.
    + intros Hnd. apply length_remove_dups_eq in Hnd. rewrite Hnd, Z.sub_diag.
      apply Qc_is_canon. reflexivity.
  - split; [reflexivity|]. split; [reflexivity|reflexivity].
Qed.

(** ** Missing values *)

Lemma dict_of_snoc (items : list (string * Z)) (k : string) (v : Z) :
  dict_of (items ++ [(k, v)]) = <[k := v]> (dict_of items).
Proof. unfold dict_of. now rewrite foldl_app. Qed.

Lemma dict_of_lookup_None (items : list (string * Z)) (k : string) :
  k ∉ items.*1 -> dict_of items !! k = None.
Proof.
  induction items as [|[k' v'] items IH] using rev_ind; intros Hk;
    [apply lookup_empty|].
  rewrite dict_of_snoc. rewrite fmap_app in Hk. simpl in Hk.
  rewrite lookup_insert_ne
    by (intros ->; apply Hk, elem_of_app; right; left).
  apply IH. intros Hin. apply Hk, elem_of_app. now left.
Qed.

Lemma dict_of_lookup (items : list (string * Z)) (k : string) (v : Z) :
  NoDup items.*1 -> (k, v) ∈ items -> dict_of items !! k = Some v.
Proof.
  induction items as [|[k' v'] items IH] using rev_ind; intros Hnd Hin;
    [now apply elem_of_nil in Hin|].
  rewrite dict_of_snoc. rewrite fmap_app in Hnd. simpl in Hnd.
  apply NoDup_app in Hnd as (Hnd & Hfresh & _).
  apply elem_of_app in Hin as [Hin|Hin].
  - rewrite lookup_insert_ne; [now apply IH|].
    intros ->. apply (Hfresh k); [|left].
    apply list_elem_of_fmap. now exists (k, v).
  - apply list_elem_of_singleton in Hin. injection Hin as -> ->.
    apply lookup_insert_eq.
Qed.

Lemma sum_values_dict_of (items : list (string * Z)) :
  NoDup items.*1 -> sum_values (dict_of items) = zsum items.*2.
Proof.
  induction items as [|[k v] items IH] using rev_ind; intros Hnd;
    [reflexivity|].
  rewrite dict_of_snoc. rewrite fmap_app in Hnd. simpl in Hnd.
  apply NoDup_app in Hnd as (Hnd & Hfresh & _).
  unfold sum_values. rewrite map_fold_insert_L.
  - fold (sum_values (dict_of items)). rewrite IH by exact Hnd.
    rewrite fmap_app. unfold zsum. rewrite foldr_app. simpl.
    generalize (items.*2). intros l. induction l as [|x l IHl]; simpl; lia.
  - intros. lia.
  - apply dict_of_lookup_None. intros Hk. apply (Hfresh k); [exact Hk|left].
Qed.

Lemma zsum_bounds (f : nat -> Z) (bound : Z) (js : list nat) :
  (forall j, 0 <= f j <= bound)%Z ->
  (0 <= zsum (f <$> js) <= Z.of_nat (length js) * bound)%Z.
Proof.
  intros Hf. induction js as [|j js IH]; [simpl; lia|].
  specialize (Hf j). rewrite fmap_cons, length_cons, Nat2Z.inj_succ.
  unfold zsum in *. rewrite foldr_cons. nia.
Qed.

(** X18: for a table with distinct column names, [missing_values] maps
    each column name to the number of nulls in that column,
    [total_missing] is the sum of these numbers, and it lies between 0 and
    the number of rows times the number of columns. *)
Theorem missing_values_count_nulls (data : Table.t)
    (check_duplicates check_outliers : bool) :
  NoDup (Table.columns data) ->
  exists missing_values total_missing,
    check_data_quality data true check_duplicates check_outliers
      !! "missing_values" = Some (RCounts missing_values)
    /\ check_data_quality data true check_duplicates check_outliers
         !! "total_missing" = Some (RInt total_missing)
    /\ (forall j col,
          Table.columns data !! j = Some col ->
          missing_values !! col = Some (Table.null_count_of data j))
    /\ (forall col,
          col ∉ Table.columns data -> missing_values !! col = None)
    /\ total_missing = zsum (Table.null_count data)
    /\ (0 <= total_missing
        <= Z.of_nat (Table.width data) * Z.of_nat (Table.height data))%Z.
Proof.
  intros Hnd.
  assert (Hlen : length (Table.columns data)
                 = length (Table.null_count data)).
  { unfold Table.columns, Table.null_count, Table.width.
    now rewrite !length_fmap, length_seq. }
  assert (Hfst : (zip (Table.columns data) (Table.null_count data)).*1
                 = Table.columns data) by (apply fst_zip; lia).
  assert (Hsnd : (zip (Table.columns data) (Table.null_count data)).*2
                 = Table.null_count data) by (apply snd_zip; lia).
  eexists _, _. split; [|split].
  { unfold check_data_quality.
    destruct check_duplicates, check_outliers; simpl;
      rewrite ?(lookup_insert_ne (M:=gmap string)) by done;
      apply lookup_insert_eq. }
  { unfold check_data_quality.
    destruct check_duplicates, check_outliers; simpl;
      rewrite ?(lookup_insert_ne (M:=gmap string)) by done;
      apply lookup_insert_eq. }
  split; [|split; [|split]].
  - intros j col Hcol. apply dict_of_lookup; [now rewrite Hfst|].
    apply list_elem_of_lookup. exists j.
    apply lookup_zip_Some. split; [exact Hcol|].
    unfold Table.null_count. rewrite list_lookup_fmap.
    rewrite lookup_seq_lt; [reflexivity|].
    apply lookup_lt_Some in Hcol. unfold Table.columns in Hcol.
    now rewrite length_fmap in Hcol.
  - intros col Hcol. apply dict_of_lookup_None. now rewrite Hfst.
  - rewrite sum_values_dict_of by now rewrite Hfst. now rewrite Hsnd.
  - rewrite sum_values_dict_of by now rewrite Hfst. rewrite Hsnd.
    unfold Table.null_count.
    pose proof (zsum_bounds (Table.null_count_of data)
                  (Z.of_nat (Table.height data))
                  (seq 0 (Table.width data))) as Hb.
    rewrite length_seq in Hb. apply Hb. intros j.
    unfold Table.null_count_of, Table.height.
    pose proof (length_filter (λ row : list (option Value),
                                 row !! j = Some None) (Table.rows data)).
    lia.
Qed.

Lemma missing_values_count_nulls_witness :
  exists missing_values total_missing,
    check_data_quality quality_sample true true false
      !! "missing_values" = Some (RCounts missing_values)
    /\ check_data_quality quality_sample true true false
         !! "total_missing" = Some (RInt total_missing)
    /\ (forall j col,
          Table.columns quality_sample !! j = Some col ->
          missing_values !! col = Some (Table.null_count_of quality_sample j))
    /\ (forall col,
          col ∉ Table.columns quality_sample -> missing_values !! col = None)
    /\ total_missing = zsum (Table.null_count quality_sample)
    /\ (0 <= total_missing
        <= Z.of_nat (Table.width quality_sample)
           * Z.of_nat (Table.height quality_sample))%Z.
Proof.
  apply missing_values_count_nulls.
  apply (bool_decide_unpack _). vm_compute. exact I.
Defined.

Lemma zsum_ext {A : Type} (f g : A -> Z) (l : list A) :
  (forall x, f x = g x) -> zsum (f <$> l) = zsum (g <$> l).
Proof.
  intros Hfg. induction l as [|x l IH]; [reflexivity|].
  rewrite !fmap_cons. unfold zsum in *. rewrite !foldr_cons, Hfg, IH.
  reflexivity.
Qed.

Lemma zsum_add {A : Type} (f g : A -> Z) (l : list A) :
  zsum ((λ x, f x + g x)%Z <$> l) = (zsum (f <$> l) + zsum (g <$> l))%Z.
Proof.
  induction l as [|x l IH]; [reflexivity|].
  rewrite !fmap_cons. unfold zsum in *. rewrite !foldr_cons, IH. lia.
Qed.

Lemma zsum_zero {A : Type} (l : list A) : zsum ((λ _, 0%Z) <$> l) = 0%Z.
Proof.
  induction l as [|x l IH]; [reflexivity|].
  rewrite fmap_cons. unfold zsum in *. now rewrite foldr_cons, IH.
Qed.

Lemma lookup_all_cells {A : Type} (row : list A) :
  (λ j, row !! j) <$> seq 0 (length row) = Some <$> row.
Proof.
  apply list_eq. intros j. rewrite !list_lookup_fmap.
  destruct (decide (j < length row)) as [Hj|Hj].
  - rewrite lookup_seq_lt by exact Hj. simpl.
    destruct (lookup_lt_is_Some_2 row j Hj) as [x Hx]. now rewrite Hx.
  - rewrite lookup_seq_ge by lia. now rewrite lookup_ge_None_2 by lia.
Qed.

(** The nulls of one row, counted column by column. *)
Lemma row_nulls (row : list (option Value)) :
  zsum ((λ j, if decide (row !! j = Some None) then 1 else 0)%Z
          <$> seq 0 (length row))
  = Z.of_nat (length (filter (λ cell, cell = None) row)).
Proof.
  transitivity
    (zsum ((λ o : option (option Value),
              if decide (o = Some None) then 1 else 0)%Z
             <$> ((λ j, row !! j) <$> seq 0 (length row)))).
  { now rewrite <- list_fmap_compose. }
  rewrite lookup_all_cells, <- list_fmap_compose.
  induction row as [|cell row IH]; [reflexivity|].
  rewrite fmap_cons, filter_cons. unfold zsum in *. rewrite foldr_cons, IH.
  simpl. destruct cell as [v|]; repeat case_decide; simpl;
    (congruence || lia).
Qed.

Lemma column_nulls_sum (w : nat) (rows : list (list (option Value))) :
  Forall (λ row, length row = w) rows ->
  zsum ((λ j, Z.of_nat
                (length (filter (λ row, row !! j = Some None) rows)))
          <$> seq 0 w)
  = Z.of_nat (length (filter (λ cell, cell = None) (concat rows))).
Proof.
  induction 1 as [|row rows Hrow _ IH]; simpl.
  - apply zsum_zero.
  - rewrite filter_app, length_app, Nat2Z.inj_add, <- IH.
    rewrite <- row_nulls, Hrow, <- zsum_add.
    apply zsum_ext. intros j. rewrite filter_cons.
    destruct (decide (row !! j = Some None)); simpl; lia.
Qed.

(** X19: for a table with distinct column names and one cell per column in
    every row, [total_missing] is the number of null cells of the table. *)
Theorem total_missing_counts_null_cells (data : Table.t)
    (check_duplicates check_outliers : bool) :
  NoDup (Table.columns data) ->
  rectangular data ->
  check_data_quality data true check_duplicates check_outliers
    !! "total_missing" = Some (RInt (null_cells data)).
Proof.
  intros Hnd Hrect.
  assert (Hlen : length (Table.columns data)
                 = length (Table.null_count data)).
  { unfold Table.columns, Table.null_count, Table.width.
    now rewrite !length_fmap, length_seq. }
  assert (Hsum :
    sum_values (dict_of (zip (Table.columns data) (Table.null_count data)))
    = null_cells data).
  { rewrite sum_values_dict_of by (rewrite fst_zip; [exact Hnd|lia]).
    rewrite snd_zip by lia.
    apply (column_nulls_sum (Table.width data) (Table.rows data) Hrect). }
  unfold check_data_quality. rewrite Hsum.
  destruct check_duplicates, check_outliers; simpl;
    rewrite ?(lookup_insert_ne (M:=gmap string)) by done;
    apply lookup_insert_eq.
Qed.

Lemma total_missing_counts_null_cells_witness :
  check_data_quality quality_sample true true false !! "total_missing"
  = Some (RInt (null_cells quality_sample)).
Proof.
  apply total_missing_counts_null_cells.
  - apply (bool_decide_unpack _). vm_compute. exact I.
  - repeat constructor.
Defined.

(** ** Outliers *)

Lemma length_omap_le {A B : Type} (f : A -> option B) (l : list A) :
  length (omap f l) <= length l.
Proof.
  induction l as [|x l IH]; csimpl; [lia|].
  destruct (f x); csimpl; lia.
Qed.

Lemma filter_none {A : Type} (P : A -> Prop) `{forall x, Decision (P x)}
    (l : list A) :
  Forall (λ x, ~ P x) l -> filter P l = [].
Proof.
  induction 1 as [|x l Hx _ IH]; [reflexivity|].
  rewrite filter_cons. now rewrite decide_False by exact Hx.
Qed.

Lemma length_values_of (data : Table.t) (j : nat) :
  length (Table.values_of data j) <= Table.height data.
Proof. apply length_omap_le. Qed.

Lemma outlier_count_bounds (values : list Qc) :
  (0 <= outlier_count values <= Z.of_nat (length values))%Z.
Proof.
  unfold outlier_count. split; [lia|]. apply inj_le, length_filter.
Qed.

(** Where all values are the same, every percentile is that value. *)
Lemma percentile_constant (values : list Qc) (c : Qc) (q : Z) :
  values ≠ [] ->
  Forall (λ v, v = c) values ->
  (0 <= q <= 100)%Z ->
  percentile values q = c.
Proof.
  intros Hne Hall Hq. unfold percentile.
  pose proof (merge_sort_Permutation Qcle values) as Hperm.
  assert (Hsorted : Forall (λ v, v = c) (merge_sort Qcle values))
    by now rewrite Hperm.
  assert (Hlen : 0 < length (merge_sort Qcle values)).
  { rewrite Hperm. destruct values; [congruence|simpl; lia]. }
  set (sorted := merge_sort Qcle values) in *.
  set (n := Z.of_nat (length sorted)).
  assert (Hn : (1 <= n)%Z) by (unfold n; lia).
  assert (Hprev : (0 <= (n - 1) * q / 100 <= n - 1)%Z).
  { split; [apply Z.div_pos; nia|].
    apply Z.div_le_upper_bound; nia. }
  assert (Hread : forall i : Z,
    (0 <= i <= n - 1)%Z -> default 0%Qc (sorted !! Z.to_nat i) = c).
  { intros i Hi.
    destruct (lookup_lt_is_Some_2 sorted (Z.to_nat i)) as [x Hx];
      [unfold n in Hi; lia|].
    rewrite Hx. simpl.
    rewrite Forall_forall in Hsorted. apply Hsorted.
    eapply list_elem_of_lookup_2, Hx. }
  rewrite !Hread by lia. ring.
Qed.

Lemma outlier_count_constant (values : list Qc) (c : Qc) :
  values ≠ [] ->
  Forall (λ v, v = c) values ->
  outlier_count values = 0%Z.
Proof.
  intros Hne Hall. unfold outlier_count.
  rewrite !(percentile_constant values c) by (assumption || lia).
  replace (c - Qc_of_Z 3 / Qc_of_Z 2 * (c - c))%Qc with c by ring.
  replace (c + Qc_of_Z 3 / Qc_of_Z 2 * (c - c))%Qc with c by ring.
  rewrite filter_none; [reflexivity|].
  eapply Forall_impl; [exact Hall|].
  intros v -> [Hlt|Hlt]; now apply Qclt_not_eq in Hlt.
Qed.

(** The dict built by the loop of lines 82-93 over the columns [cols]. *)
Lemma outliers_fold_lookup (data : Table.t)
    (cols : list (nat * (string * DataType))) (col : string) (n : Z) :
  NoDup (cols.*2.*1) ->
  foldl (outliers_step data) ∅ cols !! col = Some n
  <-> exists j dtype,
        (j, (col, dtype)) ∈ cols
        /\ is_numeric dtype = true
        /\ Table.values_of data j ≠ []
        /\ n = outlier_count (Table.values_of data j).
Proof.
  induction cols as [|[j' [col' dtype']] cols IH] using rev_ind; intros Hnd.
  - simpl. rewrite lookup_empty. split; [discriminate|].
    intros (j & dtype & Hin & _). now apply elem_of_nil in Hin.
  - rewrite !fmap_app in Hnd. simpl in Hnd.
    apply NoDup_app in Hnd as (Hnd & Hfresh & _). specialize (IH Hnd).
    assert (Hother : forall j dtype, (j, (col', dtype)) ∈ cols -> False).
    { intros j dtype Hin. apply (Hfresh col'); [|left].
      apply list_elem_of_fmap. exists (col', dtype). split; [reflexivity|].
      apply list_elem_of_fmap. now exists (j, (col', dtype)). }
    rewrite foldl_app. simpl. unfold outliers_step at 1. simpl.
    assert (Hkeep :
      foldl (outliers_step data) ∅ cols !! col = Some n
      <-> exists j dtype,
            (j, (col, dtype)) ∈ cols ++ [(j', (col', dtype'))]
            /\ is_numeric dtype = true
            /\ Table.values_of data j ≠ []
            /\ n = outlier_count (Table.values_of data j)
            /\ (j, (col, dtype)) ≠ (j', (col', dtype'))).
    { rewrite IH. split.
      - intros (j & dtype & Hin & Hnum & Hval & Hn).
        exists j, dtype. split; [apply elem_of_app; now left|].
        repeat split; try assumption.
        intros [= -> -> ->]. eapply Hother, Hin.
      - intros (j & dtype & Hin & Hnum & Hval & Hn & Hne).
        exists j, dtype. apply elem_of_app in Hin as [Hin|Hin];
          [auto|].
        apply list_elem_of_singleton in Hin. contradiction. }
    destruct (is_numeric dtype') eqn:Hnum'.
    + case_bool_decide as Hlen'.
      * destruct (decide (col = col')) as [->|Hcol].
        -- rewrite lookup_insert_eq. split.
           ++ intros [= <-]. exists j', dtype'.
              split; [apply elem_of_app; right; left|].
              split; [exact Hnum'|]. split; [|reflexivity].
              intros Hnil. rewrite Hnil in Hlen'. simpl in Hlen'. lia.
           ++ intros (j & dtype & Hin & _ & _ & Hn).
              apply elem_of_app in Hin as [Hin|Hin];
                [exfalso; eapply Hother, Hin|].
              apply list_elem_of_singleton in Hin.
              injection Hin as -> ->. now rewrite Hn.
        -- rewrite lookup_insert_ne by congruence. rewrite Hkeep. split.
           ++ intros (j & dtype & Hin & Hnum & Hval & Hn & _). eauto 10.
           ++ intros (j & dtype & Hin & Hnum & Hval & Hn).
              exists j, dtype. repeat split; try assumption. congruence.
      * rewrite Hkeep. split.
        -- intros (j & dtype & Hin & Hnum & Hval & Hn & _). eauto 10.
        -- intros (j & dtype & Hin & Hnum & Hval & Hn).
           exists j, dtype. repeat split; try assumption.
           intros [= -> -> ->]. apply Hlen'.
           destruct (Table.values_of data j'); [congruence|simpl; lia].
    + rewrite Hkeep. split.
      * intros (j & dtype & Hin & Hnum & Hval & Hn & _). eauto 10.
      * intros (j & dtype & Hin & Hnum & Hval & Hn).
        exists j, dtype. repeat split; try assumption.
        intros [= -> -> ->]. congruence.
Qed.

Lemma outliers_of_lookup (data : Table.t) (col : string) (n : Z) :
  NoDup (Table.columns data) ->
  outliers_of data !! col = Some n
  <-> exists j dtype,
        Table.schema data !! j = Some (col, dtype)
        /\ is_numeric dtype = true
        /\ Table.values_of data j ≠ []
        /\ n = outlier_count (Table.values_of data j).
Proof.
  intros Hnd. unfold outliers_of.
  rewrite outliers_fold_lookup
    by (rewrite snd_zip by (rewrite length_seq; unfold Table.width; lia);
        exact Hnd).
  assert (Hzip : forall j dtype,
    (j, (col, dtype)) ∈ zip (seq 0 (Table.width data)) (Table.schema data)
    <-> Table.schema data !! j = Some (col, dtype)).
  { intros j dtype. rewrite list_elem_of_lookup. split.
    - intros [i Hi]. apply lookup_zip_Some in Hi as [Hseq Hcol].
      apply lookup_seq in Hseq as [-> _]. exact Hcol.
    - intros Hcol. exists j. apply lookup_zip_Some. split; [|exact Hcol].
      apply lookup_seq_lt. apply lookup_lt_Some in Hcol. exact Hcol. }
  split; intros (j & dtype & Hin & Hrest); exists j, dtype;
    (split; [apply Hzip, Hin|exact Hrest]).
Qed.

Lemma outliers_key (data : Table.t) (check_missing check_duplicates : bool) :
  check_data_quality data check_missing check_duplicates true !! "outliers"
  = Some (RCounts (outliers_of data)).
Proof.
  unfold check_data_quality.
  destruct check_missing, check_duplicates; apply lookup_insert_eq.
Qed.

(** X20: for a table with distinct column names, [outliers] has an entry
    exactly for the columns of type Float64, Int64, Float32 or Int32 that
    hold at least one non-null value, and every entry is between 0 and the
    number of rows. *)
Theorem outliers_cover_numeric_columns (data : Table.t)
    (check_missing check_duplicates : bool) :
  NoDup (Table.columns data) ->
  exists outliers,
    check_data_quality data check_missing check_duplicates true
      !! "outliers" = Some (RCounts outliers)
    /\ (forall col,
          is_Some (outliers !! col)
          <-> exists j dtype,
                Table.schema data !! j = Some (col, dtype)
                /\ dtype ∈ [Float64; Int64; Float32; Int32]
                /\ Table.values_of data j ≠ [])
    /\ (forall col n,
          outliers !! col = Some n ->
          (0 <= n <= Z.of_nat (Table.height data))%Z).
Proof.
  intros Hnd. exists (outliers_of data). split; [apply outliers_key|].
  split.
  - intros col. split.
    + intros [n Hn]. apply (outliers_of_lookup data col n Hnd) in Hn
        as (j & dtype & Hcol & Hnum & Hval & _).
      exists j, dtype. split; [exact Hcol|]. split; [|exact Hval].
      now apply bool_decide_eq_true in Hnum.
    + intros (j & dtype & Hcol & Hnum & Hval).
      exists (outlier_count (Table.values_of data j)).
      apply (outliers_of_lookup data col _ Hnd).
      exists j, dtype. split; [exact Hcol|]. split; [|split; [exact Hval|]].
      * now apply bool_decide_eq_true.
      * reflexivity.
  - intros col n Hn. apply (outliers_of_lookup data col n Hnd) in Hn
      as (j & dtype & _ & _ & _ & ->).
    pose proof (outlier_count_bounds (Table.values_of data j)).
    pose proof (length_values_of data j). lia.
Qed.

Lemma outliers_cover_numeric_columns_witness :
  exists outliers,
    check_data_quality quality_sample true true true
      !! "outliers" = Some (RCounts outliers)
    /\ (forall col,
          is_Some (outliers !! col)
          <-> exists j dtype,
                Table.schema quality_sample !! j = Some (col, dtype)
                /\ dtype ∈ [Float64; Int64; Float32; Int32]
                /\ Table.values_of quality_sample j ≠ [])
    /\ (forall col n,
          outliers !! col = Some n ->
          (0 <= n <= Z.of_nat (Table.height quality_sample))%Z).
Proof.
  apply outliers_cover_numeric_columns.
  apply (bool_decide_unpack _). vm_compute. exact I.
Defined.

(** X21: a numeric column whose non-null values are all the same has no
    outlier: its entry in [outliers] is 0. *)
Theorem constant_column_has_no_outlier (data : Table.t)
    (check_missing check_duplicates : bool)
    (j : nat) (col : string) (dtype : DataType) (c : Qc) :
  NoDup (Table.columns data) ->
  Table.schema data !! j = Some (col, dtype) ->
  dtype ∈ [Float64; Int64; Float32; Int32] ->
  Table.values_of data j ≠ [] ->
  Forall (λ v, v = c) (Table.values_of data j) ->
  exists outliers,
    check_data_quality data check_missing check_duplicates true
      !! "outliers" = Some (RCounts outliers)
    /\ outliers !! col = Some 0%Z.
Proof.
  intros Hnd Hcol Hnum Hval Hall.
  exists (outliers_of data). split; [apply outliers_key|].
  apply (outliers_of_lookup data col 0%Z Hnd).
  exists j, dtype. split; [exact Hcol|].
  split; [now apply bool_decide_eq_true|]. split; [exact Hval|].
  symmetry. now apply (outlier_count_constant _ c).
Qed.

Lemma constant_column_has_no_outlier_witness :
  exists outliers,
    check_data_quality constant_sample true true true
      !! "outliers" = Some (RCounts outliers)
    /\ outliers !! "price" = Some 0%Z.
Proof.
  apply (constant_column_has_no_outlier constant_sample true true
           0 "price" Float64 (Qc_of_Z 5)).
  - apply (bool_decide_unpack _). vm_compute. exact I.
  - reflexivity.
  - left.
  - discriminate.
  - repeat constructor.
Defined.
